(** * Flatten: a shallow embedding of [src/src/index.ts]

    The development follows the script's structure:
    - [Transform]: the flattened-file-name computation of [runRule]
      (lines 468-473), parameterised by Node's [path.sep];
    - [SizeArg]: [parseFileSize] (lines 163-173), with the IEEE-754
      arithmetic of [Number.parseFloat], [*] and [Math.floor] written out
      over [Z];
    - [Engine]: [runRule] and the [copyRules.reduce] driver (lines 384-386,
      419-510), with the module-level accumulators [copiedFiles],
      [skippedFiles], [errorFiles] and [totalBytes] threaded as explicit
      state, and the file-system, glob and minimatch collaborators given
      as parameters. *)

From Stdlib Require Import String Ascii List Bool ZArith Lia Permutation.
Import ListNotations.
Open Scope string_scope.

(* ------------------------------------------------------------------ *)
(** ** Strings as JavaScript sees them *)

Module Js.

(** [s.replaceAll("_", "__")] *)
Fixpoint escape_underscores (s : string) : string :=
  match s with
  | EmptyString => EmptyString
  | String c s' =>
      if Ascii.eqb c "_"%char then String "_" (String "_" (escape_underscores s'))
      else String c (escape_underscores s')
  end.

(** [s.split(c)] for a one-character separator: always at least one
    piece, empty pieces kept. *)
Fixpoint split (c : ascii) (s : string) : list string :=
  match s with
  | EmptyString => [EmptyString]
  | String x s' =>
      let r := split c s' in
      if Ascii.eqb x c then EmptyString :: r
      else match r with
           | h :: t => String x h :: t
           | [] => [String x EmptyString]
           end
  end.

(** [xs.join(sep)] *)
Definition join (sep : string) (xs : list string) : string :=
  String.concat sep xs.

(** Membership of a character in a string. *)
Fixpoint has_char (c : ascii) (s : string) : bool :=
  match s with
  | EmptyString => false
  | String x s' => Ascii.eqb x c || has_char c s'
  end.

End Js.

(* ------------------------------------------------------------------ *)
(** ** The path transformation *)

Module Transform.

(** Node's [path.sep]: ['/'] on POSIX systems, ['\'] on Windows. *)
Inductive platform := Posix | Win32.

Definition pathSeparator (p : platform) : ascii :=
  match p with Posix => "/"%char | Win32 => "092"%char end.

(** [.filter(Boolean)] on strings *)
Definition nonempty (s : string) : bool :=
  match s with EmptyString => false | _ => true end.

(** [.filter((component) => !["node_modules", "."].includes(component))] *)
Definition not_unwanted (c : string) : bool :=
  negb (existsb (String.eqb c) ["node_modules"; "."]).

(** Lines 468-473 of [runRule]. *)
Definition flattenedFileName (p : platform) (sourceFile : string) : string :=
  Js.join "_"
    (filter not_unwanted
       (filter nonempty
          (Js.split (pathSeparator p) (Js.escape_underscores sourceFile)))).

(** The component sequence of a source path that the specification
    refers to: the path split on the separator, with empty, ["."] and
    ["node_modules"] components dropped. *)
Definition components (p : platform) (sourceFile : string) : list string :=
  filter not_unwanted (filter nonempty (Js.split (pathSeparator p) sourceFile)).

(** The transformation as the specification words it, to be compared with
    [flattenedFileName]: the escaped path is split on every character of
    [seps], here both ['/'] and the native separator. *)
Fixpoint split_any (seps : list ascii) (s : string) : list string :=
  match s with
  | EmptyString => [EmptyString]
  | String x s' =>
      let r := split_any seps s' in
      if existsb (Ascii.eqb x) seps then EmptyString :: r
      else match r with
           | h :: t => String x h :: t
           | [] => [String x EmptyString]
           end
  end.

Definition flattenedFileName_spec (p : platform) (sourceFile : string) : string :=
  Js.join "_"
    (filter not_unwanted
       (filter nonempty
          (split_any ["/"%char; pathSeparator p] (Js.escape_underscores sourceFile)))).

End Transform.

(* ------------------------------------------------------------------ *)
(** ** Numbers produced by [parseFileSize] *)

(** The JavaScript numbers [parseFileSize] can return: [Math.floor] of a
    non-negative double is a non-negative integer or [Infinity]. *)
Inductive num := NFin (z : Z) | NInf.

(* ------------------------------------------------------------------ *)
(** ** [parseFileSize] *)

Module SizeArg.
Local Open Scope Z_scope.

(** [\d] without the [u] flag: the ASCII digits. *)
Definition is_digit (c : ascii) : bool :=
  let n := nat_of_ascii c in (48 <=? n)%nat && (n <=? 57)%nat.

(** Greedy [\d*]: the longest digit prefix and the rest. *)
Fixpoint span_digits (s : string) : string * string :=
  match s with
  | EmptyString => (EmptyString, EmptyString)
  | String c s' =>
      if is_digit c then let '(d, r) := span_digits s' in (String c d, r)
      else (EmptyString, s)
  end.

(** Case folding of the [i] flag on ASCII letters. *)
Definition to_upper (c : ascii) : ascii :=
  let n := nat_of_ascii c in
  if (97 <=? n)%nat && (n <=? 122)%nat then ascii_of_nat (n - 32) else c.

Fixpoint upper (s : string) : string :=
  match s with
  | EmptyString => EmptyString
  | String c s' => String (to_upper c) (upper s')
  end.

(** The alternative [(B|KB|MB|GB)$] with the [i] flag, returning [n] such
    that [units[unit.toUpperCase()] = 1024^n]. *)
Definition unit_exponent (u : string) : option Z :=
  let u' := upper u in
  if String.eqb u' "B" then Some 0%Z
  else if String.eqb u' "KB" then Some 1%Z
  else if String.eqb u' "MB" then Some 2%Z
  else if String.eqb u' "GB" then Some 3%Z
  else None.

(** [sizeStr.match(/^(\d+(?:\.\d+)?)(B|KB|MB|GB)$/i)]: the integer digits,
    the fraction digits (empty when the optional group is absent) and the
    unit exponent. Digits, ['.'] and unit letters are disjoint, so the
    greedy reading below is the only way the regex can match. *)
Definition match_unit (i f r : string) : option (string * string * Z) :=
  match unit_exponent r with
  | Some n => Some (i, f, n)
  | None => None
  end.

Definition match_size (s : string) : option (string * string * Z) :=
  let '(i, r) := span_digits s in
  if String.eqb i EmptyString then None
  else
    match r with
    | String c r' =>
        if Ascii.eqb c "." then
          let '(f, r'') := span_digits r' in
          if String.eqb f EmptyString then None else match_unit i f r''
        else match_unit i EmptyString r
    | EmptyString => match_unit i EmptyString r
    end.

Fixpoint digits_value (acc : Z) (s : string) : Z :=
  match s with
  | EmptyString => acc
  | String c s' => digits_value (acc * 10 + (Z.of_nat (nat_of_ascii c) - 48)) s'
  end.

(** Non-negative IEEE-754 binary64 values: [DFin m e] is [m * 2^e]. *)
Inductive dbl := DFin (m e : Z) | DInf.

(** [floor(p / (q * 2^e))] and the remainder's numerator/denominator. *)
Definition scaled_num (p e : Z) : Z := if (0 <=? e)%Z then p else p * 2 ^ (- e).
Definition scaled_den (q e : Z) : Z := if (0 <=? e)%Z then q * 2 ^ e else q.

(** Round [a/b] to the nearest integer, ties to even. *)
Definition round_half_even (a b : Z) : Z :=
  let k := a / b in
  let r := a mod b in
  match Z.compare (2 * r) b with
  | Lt => k
  | Gt => k + 1
  | Eq => if Z.even k then k else k + 1
  end.

Definition overflow_check (m e : Z) : dbl :=
  if (0 <=? e)%Z && (2 ^ 1024 <=? m * 2 ^ e)%Z then DInf else DFin m e.

(** The binary64 number nearest to [p/q] ([p >= 0], [q > 0]), ties to
    even, with subnormals (exponent floor [-1074]) and overflow to
    [Infinity]. *)
Definition round_binary64 (p q : Z) : dbl :=
  if (p =? 0)%Z then DFin 0 0
  else
    let e0 := Z.log2 p - Z.log2 q - 52 in
    let e1 := if (scaled_num p e0 / scaled_den q e0 <? 2 ^ 52)%Z then e0 - 1 else e0 in
    let e := Z.max e1 (-1074) in
    overflow_check (round_half_even (scaled_num p e) (scaled_den q e)) e.

(** [Number.parseFloat] on the captured group [i] or [i.f]: correctly
    rounded (the captures met below have at most 20 significant digits,
    where ECMAScript requires correct rounding). *)
Definition parseFloat (i f : string) : dbl :=
  round_binary64 (digits_value 0 (i ++ f)) (10 ^ Z.of_nat (String.length f)).

(** [x * units[unit]] with [units[unit] = 2^(10n)]: exact apart from
    overflow. *)
Definition mul_pow2 (d : dbl) (k : Z) : dbl :=
  match d with
  | DFin m e => overflow_check m (e + k)
  | DInf => DInf
  end.

(** [Math.floor] on a non-negative double. *)
Definition floor (d : dbl) : num :=
  match d with
  | DFin m e => NFin (if (0 <=? e)%Z then m * 2 ^ e else m / 2 ^ (- e))
  | DInf => NInf
  end.

(** [parseFileSize(sizeStr)]; [None] when it throws. *)
Definition parseFileSize (sizeStr : string) : option num :=
  match match_size sizeStr with
  | None => None
  | Some (i, f, n) => Some (floor (mul_pow2 (parseFloat i f) (10 * n)))
  end.

(** The size-argument format in the specification's words: a number
    (one or more digits, optionally a point and one or more digits)
    immediately followed by one of the units B, KB, MB, GB in any letter
    case, [n] being the unit's power of 1024. *)
Fixpoint all_digits (s : string) : bool :=
  match s with
  | EmptyString => true
  | String c s' => is_digit c && all_digits s'
  end.

Definition unit_spelling (u : string) (n : Z) : Prop :=
  (n = 0 /\ In u ["B"; "b"]) \/
  (n = 1 /\ In u ["KB"; "Kb"; "kB"; "kb"]) \/
  (n = 2 /\ In u ["MB"; "Mb"; "mB"; "mb"]) \/
  (n = 3 /\ In u ["GB"; "Gb"; "gB"; "gb"]).

Definition spec_size_format (s : string) : Prop :=
  exists i f u n,
    s = i ++ f ++ u /\ i <> EmptyString /\ all_digits i = true /\
    (f = EmptyString \/
     exists f', f = String "." f' /\ f' <> EmptyString /\ all_digits f' = true) /\
    unit_spelling u n.

End SizeArg.

(* ------------------------------------------------------------------ *)
(** ** The rule engine *)

Module Engine.
Import Transform.

(** The per-file outcomes of [runRule], one per branch of the loop body
    (lines 447-507). *)
Inductive outcome := Copied | WouldCopy | SkippedSize | SkippedDuplicate | Error.

(** The file-system collaborators: [statSync(f).size] ([None] when it
    throws) and [copyFileSync(src, dst)] ([false] when it throws). *)
Record fs := {
  statSize : string -> option Z;
  copyFileSync : string -> string -> bool
}.

(** The command-line configuration and the library collaborators
    ([globSync], [minimatch], [path.join]). *)
Record config := {
  platform_of : platform;
  targetPath : string;
  dryRun : bool;
  maxFileSize : option num;           (* number | null *)
  globSync : string -> list string;
  minimatch : string -> string -> bool;
  path_join : string -> string -> string
}.

(** The module-level accumulators, plus two observables: the copies
    performed ([writes]) and the outcome of each processed path, in
    processing order ([outcomes]). *)
Record state := {
  copiedFiles : list string;
  skippedFiles : list string;
  errorFiles : list string;
  totalBytes : Z;
  writes : list (string * string);
  outcomes : list (string * outcome)
}.

Definition init : state := Build_state [] [] [] 0 [] [].

Definition record_error (st : state) (f : string) : state :=
  Build_state (copiedFiles st) (skippedFiles st) (errorFiles st ++ [f])
    (totalBytes st) (writes st) (outcomes st ++ [(f, Error)]).

Definition record_skip (st : state) (f : string) (o : outcome) : state :=
  Build_state (copiedFiles st) (skippedFiles st ++ [f]) (errorFiles st)
    (totalBytes st) (writes st) (outcomes st ++ [(f, o)]).

Definition record_would_copy (st : state) (f : string) (size : Z) : state :=
  Build_state (copiedFiles st) (skippedFiles st) (errorFiles st)
    (totalBytes st + size) (writes st) (outcomes st ++ [(f, WouldCopy)]).

Definition record_copy (st : state) (f tfp : string) (size : Z) : state :=
  Build_state (copiedFiles st ++ [tfp]) (skippedFiles st) (errorFiles st)
    (totalBytes st + size) (writes st ++ [(f, tfp)]) (outcomes st ++ [(f, Copied)]).

(** JavaScript truthiness of [maxFileSize] ([null] and [0] are falsy). *)
Definition truthy (m : option num) : bool :=
  match m with
  | None => false
  | Some (NFin z) => negb (Z.eqb z 0)
  | Some NInf => true
  end.

(** [fileSize > maxFileSize] *)
Definition gt_num (size : Z) (m : option num) : bool :=
  match m with
  | Some (NFin z) => Z.ltb z size
  | _ => false
  end.

(** [maxFileSize && fileSize > maxFileSize] (line 454) *)
Definition exceeds (m : option num) (size : Z) : bool :=
  truthy m && gt_num size m.

(** The body of the [for (const sourceFile of matchingFiles)] loop,
    including its [try]/[catch]; the [nat] is the increment of
    [successfulCopies]. *)
Definition processFile (cfg : config) (sys : fs) (st : state) (sourceFile : string)
  : state * nat :=
  match statSize sys sourceFile with
  | None => (record_error st sourceFile, 0%nat)
  | Some fileSize =>
      if exceeds (maxFileSize cfg) fileSize then (record_skip st sourceFile SkippedSize, 0%nat)
      else
        let flat := flattenedFileName (platform_of cfg) sourceFile in
        let targetFilePath := path_join cfg (targetPath cfg) flat in
        if existsb (String.eqb targetFilePath) (copiedFiles st)
        then (record_skip st sourceFile SkippedDuplicate, 0%nat)
        else if dryRun cfg then (record_would_copy st sourceFile fileSize, 1%nat)
        else if copyFileSync sys sourceFile targetFilePath
        then (record_copy st sourceFile targetFilePath fileSize, 1%nat)
        else (record_error st sourceFile, 0%nat)
  end.

(** Lines 428-437: every exclusion rule filters the working list in turn. *)
Definition applyDenyRules (cfg : config) (denyRules : list string) (files : list string)
  : list string :=
  fold_left (fun acc denyRule => filter (fun file => negb (minimatch cfg file denyRule)) acc)
    denyRules files.

Definition processFiles (cfg : config) (sys : fs) (files : list string) (st : state)
  : nat * state :=
  fold_left (fun '(n, st) f => let '(st', k) := processFile cfg sys st f in (n + k, st')%nat)
    files (0%nat, st).

(** [runRule(pattern, denyRules)]: the number of successful copies and the
    updated accumulators. *)
Definition runRule (cfg : config) (sys : fs) (st : state) (pattern : string)
  (denyRules : list string) : nat * state :=
  let matchingFiles := applyDenyRules cfg denyRules (globSync cfg pattern) in
  match matchingFiles with
  | [] => (0%nat, st)
  | _ => processFiles cfg sys matchingFiles st
  end.

(** [copyRules.reduce((acc, rule) => acc + runRule(rule, denyRules), 0)]
    from the initial (empty) accumulators: [totalFilesCopied] and the
    final state. *)
Definition run (cfg : config) (sys : fs) (copyRules denyRules : list string) : nat * state :=
  fold_left (fun '(acc, st) rule => let '(k, st') := runRule cfg sys st rule denyRules in
                                    (acc + k, st')%nat)
    copyRules (0%nat, init).

(** Auxiliary views used to state properties of a run. *)

(** The accumulators after processing [files] in order. *)
Definition states_after (cfg : config) (sys : fs) (files : list string) (st : state) : state :=
  fold_left (fun st f => fst (processFile cfg sys st f)) files st.

(** The surviving candidates of all inclusion rules, rule by rule. *)
Definition survivors (cfg : config) (copyRules denyRules : list string) : list string :=
  flat_map (fun rule => applyDenyRules cfg denyRules (globSync cfg rule)) copyRules.

(** [join(targetPath, flattenedFileName)] for a source file. *)
Definition target (cfg : config) (sourceFile : string) : string :=
  path_join cfg (targetPath cfg) (flattenedFileName (platform_of cfg) sourceFile).

Definition is_copied (e : string * outcome) : bool :=
  match snd e with Copied => true | _ => false end.

Definition is_error (e : string * outcome) : bool :=
  match snd e with Error => true | _ => false end.

Definition with_maxFileSize (cfg : config) (m : option num) : config :=
  Build_config (platform_of cfg) (targetPath cfg) (dryRun cfg) m
    (globSync cfg) (minimatch cfg) (path_join cfg).

Definition with_dryRun (cfg : config) (b : bool) : config :=
  Build_config (platform_of cfg) (targetPath cfg) b (maxFileSize cfg)
    (globSync cfg) (minimatch cfg) (path_join cfg).

End Engine.

(* ------------------------------------------------------------------ *)
(** ** Concrete runs *)

Module Scenarios.
Import Transform Engine.

(** [path.join(targetPath, name)] for a plain directory and a
    separator-free name. *)
Definition join_posix (dir name : string) : string := dir ++ "/" ++ name.

Definition lookup_size (table : list (string * Z)) (f : string) : option Z :=
  match find (fun e => String.eqb (fst e) f) table with
  | Some (_, z) => Some z
  | None => None
  end.

(** A disk holding the listed files, on which every copy succeeds. *)
Definition disk (table : list (string * Z)) : fs :=
  Build_fs (lookup_size table) (fun _ _ => true).

(** A POSIX invocation whose inclusion patterns each name one file and
    whose exclusion patterns match nothing. *)
Definition cli (dry : bool) (limit : option num) : config :=
  Build_config Posix "out" dry limit (fun pattern => [pattern]) (fun _ _ => false) join_posix.

End Scenarios.

(* ------------------------------------------------------------------ *)
(** ** Views of the run statistics *)

Module Stats.
Import Engine.

(** Outcomes counted by [successfulCopies] (lines 489 and 494). *)
Definition is_emitted (e : string * outcome) : bool :=
  match snd e with Copied | WouldCopy => true | _ => false end.

(** Outcomes pushed onto [skippedFiles] (lines 458 and 482). *)
Definition is_skipped (e : string * outcome) : bool :=
  match snd e with SkippedSize | SkippedDuplicate => true | _ => false end.

Definition size_of (sys : fs) (f : string) : Z :=
  match statSize sys f with Some z => z | None => 0 end.

Definition sum_sizes (sys : fs) (l : list (string * outcome)) : Z :=
  fold_right (fun e acc => (size_of sys (fst e) + acc)%Z) 0%Z l.

(** [totalBytes += fileSize] (lines 490 and 495) on JavaScript numbers:
    the exact sum of the two non-negative integers, rounded to the nearest
    binary64 value, which is again an integer (or [Infinity]). *)
Definition js_add (acc : num) (size : Z) : num :=
  match acc with
  | NFin a => SizeArg.floor (SizeArg.round_binary64 (a + size) 1)
  | NInf => NInf
  end.

(** The double-precision [totalBytes] after adding the sizes of the given
    outcomes in order, from [0]. *)
Definition js_total (sys : fs) (l : list (string * outcome)) : num :=
  fold_left (fun acc e => js_add acc (size_of sys (fst e))) l (NFin 0).

End Stats.

(* ------------------------------------------------------------------ *)
(** ** Reading [.flatten] and [.gitignore] (lines 194-205, 340-369) *)

(** Strings are the file contents as read with [readFileSync(_, "utf-8")],
    restricted to code units below 256, one [ascii] per code unit; in that
    range JavaScript's white space and line terminators are the characters
    listed below. *)
Module Config.
Import Transform.

(** White space and line terminators removed by [String.prototype.trim]. *)
Definition is_space (c : ascii) : bool :=
  let n := nat_of_ascii c in
  Nat.eqb n 9 || Nat.eqb n 10 || Nat.eqb n 11 || Nat.eqb n 12 || Nat.eqb n 13 ||
  Nat.eqb n 32 || Nat.eqb n 160.

(** The characters a regular-expression [.] does not match. *)
Definition is_line_terminator (c : ascii) : bool :=
  let n := nat_of_ascii c in Nat.eqb n 10 || Nat.eqb n 13.

(** [line.replace(/#.*$/gm, "")]: each [#] starts a match that extends up
    to the next line terminator (kept) or the end of the string;
    [skipping] is true inside such a match. *)
Fixpoint strip_comment (skipping : bool) (s : string) : string :=
  match s with
  | EmptyString => EmptyString
  | String c r =>
      if is_line_terminator c then String c (strip_comment false r)
      else if skipping || Ascii.eqb c "#"%char then strip_comment true r
      else String c (strip_comment false r)
  end.

Fixpoint trim_start (s : string) : string :=
  match s with
  | EmptyString => EmptyString
  | String c r => if is_space c then trim_start r else s
  end.

Fixpoint trim_end (s : string) : string :=
  match s with
  | EmptyString => EmptyString
  | String c r =>
      let r' := trim_end r in
      match r' with
      | EmptyString => if is_space c then EmptyString else String c EmptyString
      | _ => String c r'
      end
  end.

(** [s.trim()] *)
Definition trim (s : string) : string := trim_end (trim_start s).

(** [s.startsWith(c)] for a one-character [c]. *)
Definition starts_with (c : ascii) (s : string) : bool :=
  match s with
  | String x _ => Ascii.eqb x c
  | EmptyString => false
  end.

(** [s.slice(1)] *)
Definition slice1 (s : string) : string :=
  match s with
  | String _ r => r
  | EmptyString => EmptyString
  end.

(** [flattenList] (lines 343-347); [filter(Boolean)] keeps the non-empty
    strings. *)
Definition parseFlattenList (configText : string) : list string :=
  filter nonempty (map trim (map (strip_comment false) (Js.split "010"%char configText))).

(** Line 357. *)
Definition denyRules (flattenList : list string) : list string :=
  map slice1 (filter (starts_with "!"%char) flattenList).

(** Line 358. *)
Definition copyRules (flattenList : list string) : list string :=
  filter (fun rule => negb (starts_with "!"%char rule)) flattenList.

(** [loadGitignorePatterns()]; [gitignore] is the content of [.gitignore],
    [None] when the file does not exist. *)
Definition loadGitignorePatterns (gitignore : option string) : list string :=
  match gitignore with
  | None => []
  | Some content =>
      filter (fun line => nonempty line && negb (starts_with "#"%char line))
        (map trim (Js.split "010"%char content))
  end.

(** The same text with every line feed preceded by a carriage return, as
    a Windows editor saves it. *)
Fixpoint to_crlf (s : string) : string :=
  match s with
  | EmptyString => EmptyString
  | String c r =>
      if Ascii.eqb c "010"%char then String "013"%char (String "010"%char (to_crlf r))
      else String c (to_crlf r)
  end.

(** The pieces of [to_crlf s] split at line feeds: each piece but the
    last ends in the carriage return. *)
Fixpoint add_cr (pieces : list string) : list string :=
  match pieces with
  | [] => []
  | [x] => [x]
  | x :: rest => (x ++ String "013"%char EmptyString) :: add_cr rest
  end.

End Config.

(* ------------------------------------------------------------------ *)
(** ** [formatBytes] (lines 178-189) *)

(** A byte count is a [num]: an integer, or [Infinity] for [maxFileSize]
    parsed from an overflowing numeral.  Dividing a double by 1024 is
    exact, so after the loop [size] is [bytes / den] with [den] a power of
    1024, and [toFixed] works on that exact rational. *)
Module Format.
Local Open Scope Z_scope.

Definition digit (d : Z) : ascii := ascii_of_nat (48 + Z.to_nat d).

Fixpoint digits_aux (fuel : nat) (n : Z) (acc : string) : string :=
  match fuel with
  | O => acc
  | S fuel' =>
      let acc' := String (digit (n mod 10)) acc in
      if n <? 10 then acc' else digits_aux fuel' (n / 10) acc'
  end.

(** The decimal numeral of a non-negative integer. *)
Definition decimal (n : Z) : string := digits_aux (S (Z.to_nat (Z.log2 n))) n EmptyString.

Fixpoint zeros (k : nat) : string :=
  match k with O => EmptyString | S k' => String "0"%char (zeros k') end.

(** [x.toFixed(f)] for [x = a / b], [b > 0]: [n] is the integer nearest to
    [x * 10^f], the larger one on a tie; [None] when [|x| >= 10^21], where
    [toFixed] falls back to exponential notation. *)
Definition toFixed (a b : Z) (f : nat) : option string :=
  let sign := if a <? 0 then "-" else EmptyString in
  let a := Z.abs a in
  if 10 ^ 21 * b <=? a then None
  else
    let n := (2 * a * 10 ^ Z.of_nat f + b) / (2 * b) in
    let m := decimal n in
    match f with
    | O => Some (sign ++ m)
    | _ =>
        let m := if (String.length m <=? f)%nat
                 then zeros (S f - String.length m) ++ m else m in
        let k := (String.length m - f)%nat in
        Some (sign ++ substring 0 k m ++ "." ++ substring k f m)
    end.

Definition units : list string := ["B"; "KB"; "MB"; "GB"].

(** The [while] loop: [size = bytes / den]; the bound [unitIndex < 3]
    stops it after three divisions at most. *)
Fixpoint scale (fuel : nat) (bytes den : Z) (unitIndex : nat) : Z * nat :=
  match fuel with
  | O => (den, unitIndex)
  | S fuel' =>
      if (1024 * den <=? bytes) && (unitIndex <? length units - 1)%nat
      then scale fuel' bytes (den * 1024) (S unitIndex)
      else (den, unitIndex)
  end.

Definition formatBytes (bytes : num) : option string :=
  match bytes with
  | NInf => Some ("Infinity" ++ nth (length units - 1) units EmptyString)
  | NFin z =>
      let '(den, unitIndex) := scale (length units - 1) z 1 0 in
      option_map (fun s => s ++ nth unitIndex units EmptyString)
        (toFixed z den (if (0 <? unitIndex)%nat then 1 else 0))
  end.

(** The unit the thresholds select (spec-side view). *)
Definition unit_index (b : Z) : nat :=
  if b <? 1024 then 0 else if b <? 1024 ^ 2 then 1 else if b <? 1024 ^ 3 then 2 else 3.

End Format.

(* ------------------------------------------------------------------ *)
(** ** Command-line arguments (lines 55-71, 209-298) *)

Module Cli.
Import Transform.

Record options := {
  o_targetPath : string;
  cleanFirst : bool;
  followSymlinks : bool;
  verbose : bool;
  o_dryRun : bool;
  respectGitignore : bool;
  o_maxFileSize : option num;
  showStats : bool
}.

(** [join("..", `${basename(process.cwd())}-flatten-flattened`)]. *)
Definition DEFAULT_TARGET_PATH (p : platform) (cwd_base : string) : string :=
  ".." ++ String (pathSeparator p) (cwd_base ++ "-flatten-flattened").

Definition defaults (p : platform) (cwd_base : string) : options :=
  Build_options (DEFAULT_TARGET_PATH p cwd_base) false false false false false None false.

Definition set_clean (o : options) : options :=
  Build_options (o_targetPath o) true (followSymlinks o) (verbose o) (o_dryRun o)
    (respectGitignore o) (o_maxFileSize o) (showStats o).
Definition set_symlinks (o : options) : options :=
  Build_options (o_targetPath o) (cleanFirst o) true (verbose o) (o_dryRun o)
    (respectGitignore o) (o_maxFileSize o) (showStats o).
Definition set_verbose (o : options) : options :=
  Build_options (o_targetPath o) (cleanFirst o) (followSymlinks o) true (o_dryRun o)
    (respectGitignore o) (o_maxFileSize o) (showStats o).
Definition set_dryRun (o : options) : options :=
  Build_options (o_targetPath o) (cleanFirst o) (followSymlinks o) (verbose o) true
    (respectGitignore o) (o_maxFileSize o) (showStats o).
Definition set_gitignore (o : options) : options :=
  Build_options (o_targetPath o) (cleanFirst o) (followSymlinks o) (verbose o) (o_dryRun o)
    true (o_maxFileSize o) (showStats o).
Definition set_stats (o : options) : options :=
  Build_options (o_targetPath o) (cleanFirst o) (followSymlinks o) (verbose o) (o_dryRun o)
    (respectGitignore o) (o_maxFileSize o) true.
Definition set_maxFileSize (o : options) (m : num) : options :=
  Build_options (o_targetPath o) (cleanFirst o) (followSymlinks o) (verbose o) (o_dryRun o)
    (respectGitignore o) (Some m) (showStats o).
Definition set_targetPath (o : options) (t : string) : options :=
  Build_options t (cleanFirst o) (followSymlinks o) (verbose o) (o_dryRun o)
    (respectGitignore o) (o_maxFileSize o) (showStats o).

(** How the argument loop and its validation end: [--init] runs
    [initializeFlattenFile] and exits, [--help] exits with code 0, a
    missing or malformed [--max-size] value and unknown arguments exit
    with code 1; otherwise the loop yields the options. *)
Inductive parsed :=
  | InitRequested
  | HelpRequested
  | SizeMissing
  | SizeInvalid
  | InvalidArgs (unknownArgs : list string)
  | Proceed (o : options).

(** [arg.slice(1).replace(/^-/, "")] *)
Definition flag_of (arg : string) : string :=
  match Config.slice1 arg with
  | String "-" r => r
  | f => f
  end.

(** [s.endsWith(c)] for a one-character [c]. *)
Fixpoint ends_with (c : ascii) (s : string) : bool :=
  match s with
  | EmptyString => false
  | String x EmptyString => Ascii.eqb x c
  | String _ r => ends_with c r
  end.

(** Line 282. *)
Definition with_separator (p : platform) (arg : string) : string :=
  if ends_with (pathSeparator p) arg then arg else arg ++ String (pathSeparator p) EmptyString.

Definition is_flag (f : string) (names : list string) : bool :=
  existsb (String.eqb f) names.

(** The [for] loop over [args]; [i] advances over the [--max-size] value. *)
Fixpoint parse_loop (p : platform) (dflt : string) (o : options) (unknownArgs : list string)
  (args : list string) : parsed :=
  match args with
  | [] => match unknownArgs with [] => Proceed o | _ => InvalidArgs unknownArgs end
  | arg :: rest =>
      if Config.starts_with "-"%char arg then
        let flag := flag_of arg in
        if is_flag flag ["i"; "init"] then InitRequested
        else if is_flag flag ["h"; "help"] then HelpRequested
        else if is_flag flag ["c"; "clean"] then parse_loop p dflt (set_clean o) unknownArgs rest
        else if is_flag flag ["s"; "symlinks"] then parse_loop p dflt (set_symlinks o) unknownArgs rest
        else if is_flag flag ["v"; "verbose"] then parse_loop p dflt (set_verbose o) unknownArgs rest
        else if is_flag flag ["n"; "dry-run"] then parse_loop p dflt (set_dryRun o) unknownArgs rest
        else if is_flag flag ["g"; "gitignore"] then parse_loop p dflt (set_gitignore o) unknownArgs rest
        else if is_flag flag ["stats"] then parse_loop p dflt (set_stats o) unknownArgs rest
        else if is_flag flag ["max-size"] then
          match rest with
          | [] => SizeMissing
          | sizeArg :: rest' =>
              if String.eqb sizeArg EmptyString then SizeMissing
              else match SizeArg.parseFileSize sizeArg with
                   | None => SizeInvalid
                   | Some m => parse_loop p dflt (set_maxFileSize o m) unknownArgs rest'
                   end
          end
        else parse_loop p dflt o (unknownArgs ++ [arg]) rest
      else if String.eqb (o_targetPath o) dflt
      then parse_loop p dflt (set_targetPath o (with_separator p arg)) unknownArgs rest
      else parse_loop p dflt o (unknownArgs ++ [arg]) rest
  end.

Definition parseArgs (p : platform) (cwd_base : string) (args : list string) : parsed :=
  parse_loop p (DEFAULT_TARGET_PATH p cwd_base) (defaults p cwd_base) [] args.

(** The flag names of the [switch], each accepted after [-] or [--]. *)
Definition flag_names : list string :=
  ["i"; "init"; "h"; "help"; "c"; "clean"; "s"; "symlinks"; "v"; "verbose";
   "n"; "dry-run"; "g"; "gitignore"; "stats"; "max-size"].

(** The arguments the loop reads as positional: those not starting with
    [-], other than the value read after [--max-size]. *)
Fixpoint positionals (args : list string) : list string :=
  match args with
  | [] => []
  | arg :: rest =>
      if Config.starts_with "-"%char arg then
        if String.eqb (flag_of arg) "max-size" then
          match rest with [] => [] | _ :: rest' => positionals rest' end
        else positionals rest
      else arg :: positionals rest
  end.

End Cli.

(* ------------------------------------------------------------------ *)
(** ** The main execution (lines 300-386) *)

Module Main.
Import Transform Engine Cli.
Local Open Scope list_scope.

(** What [existsSync] and [readFileSync] find at a path: no file, a file
    whose read throws (a directory, no permission, invalid UTF-8 apart),
    or its text. *)
Inductive file_read := Absent | Unreadable | Contents (text : string).

(** The environment of the script: the [.flatten] file, the target
    directory, the [.gitignore] file and the library calls. [globSync]
    ignores the directory-read errors it meets, so it is total. *)
Record host := {
  flatten_file : file_read;                  (* FLATTEN_FILE_PATH *)
  dir_exists : string -> bool;               (* existsSync(targetPath) *)
  mkdir_ok : string -> bool;                 (* mkdirSync(targetPath, ...) does not throw *)
  glob_plain : string -> list string;        (* globSync(join(targetPath, "*.*")) *)
  rm_ok : string -> bool;                    (* rmSync(file) does not throw *)
  gitignore_file : file_read;                (* resolve(".gitignore") *)
  glob_follow : bool -> string -> list string; (* globSync(pattern, { follow }) *)
  mm : string -> string -> bool;             (* minimatch *)
  pjoin : string -> string -> string         (* path.join *)
}.

(** Changes made to the disk outside [runRule]. [MkdirFailed d]: the
    recursive [mkdirSync(d)] threw, possibly after creating some
    ancestors of [d]. *)
Inductive effect := Mkdir (dir : string) | MkdirFailed (dir : string) | Remove (file : string).

(** Lines 323-332: remove each file in turn; the first failure cancels. *)
Fixpoint clean_files (rm_ok : string -> bool) (files : list string) : list effect * bool :=
  match files with
  | [] => ([], true)
  | f :: rest =>
      if rm_ok f then let '(es, ok) := clean_files rm_ok rest in (Remove f :: es, ok)
      else ([], false)
  end.

(** [loadGitignorePatterns()] (lines 194-205); [None] when its
    [readFileSync] throws. *)
Definition load_gitignore (g : file_read) : option (list string) :=
  match g with
  | Absent => Some (Config.loadGitignorePatterns None)
  | Unreadable => None
  | Contents text => Some (Config.loadGitignorePatterns (Some text))
  end.

(** The configuration [runRule] sees. *)
Definition run_config (p : platform) (h : host) (o : options) : config :=
  Build_config p (o_targetPath o) (o_dryRun o) (o_maxFileSize o)
    (glob_follow h (followSymlinks o)) (mm h) (pjoin h).

(** The exit code, the directory effects, and the result of the copy run
    ([totalFilesCopied] and the accumulators) when it takes place. An
    exception that nothing catches ends the script with exit code 1. *)
Definition main (p : platform) (h : host) (sys : fs) (o : options)
  : Z * list effect * option (nat * state) :=
  match flatten_file h with
  | Absent => (1%Z, [], None)
  | flatten =>
      let t := o_targetPath o in
      let '(mk, mk_ok) :=
        if o_dryRun o then ([], true)
        else if dir_exists h t then ([], true)
        else if mkdir_ok h t then ([Mkdir t], true) else ([MkdirFailed t], false) in
      if negb mk_ok then (1%Z, mk, None)
      else
        let '(rm, ok) := if o_dryRun o then ([], true)
                         else if cleanFirst o
                              then clean_files (rm_ok h) (glob_plain h (pjoin h t "*.*"))
                              else ([], true) in
        if negb ok then (1%Z, mk ++ rm, None)
        else
          match flatten with
          | Contents configText =>
              match Config.parseFlattenList configText with
              | [] => (1%Z, mk ++ rm, None)
              | flattenList =>
                  match (if respectGitignore o then load_gitignore (gitignore_file h)
                         else Some []) with
                  | None => (1%Z, mk ++ rm, None)
                  | Some gitignorePatterns =>
                      let denyRules := match gitignorePatterns with
                                       | [] => Config.denyRules flattenList
                                       | _ => Config.denyRules flattenList ++ gitignorePatterns
                                       end in
                      (0%Z, mk ++ rm,
                       Some (run (run_config p h o) sys (Config.copyRules flattenList) denyRules))
                  end
              end
          | _ => (1%Z, mk ++ rm, None)
          end
  end.

End Main.

(* ------------------------------------------------------------------ *)
(** ** Sample invocations of the whole script *)

Module HostScenarios.
Import Transform Cli Main Scenarios.

(** A project whose [.flatten] holds [config], whose [.gitignore] holds
    [gitignore_text], and whose existing target directory [out/] lists two
    files; [removable] says which of them [rmSync] can remove. *)
Definition project (config : string) (gitignore_text : option string)
  (removable : string -> bool) : host :=
  Build_host (Contents config) (fun _ => true) (fun _ => true)
    (fun _ => ["out/old.txt"; "out/notes.md"]) removable
    (match gitignore_text with Some text => Contents text | None => Absent end)
    (fun _ pattern => [pattern]) (fun file pattern => String.eqb file pattern) join_posix.

(** The same project where the target directory [out/] is missing and
    cannot be created. *)
Definition no_target_dir (config : string) : host :=
  Build_host (Contents config) (fun _ => false) (fun _ => false) (fun _ => [])
    (fun _ => true) Absent (fun _ pattern => [pattern])
    (fun file pattern => String.eqb file pattern) join_posix.

(** The same project with a [.gitignore] that cannot be read. *)
Definition unreadable_gitignore (config : string) : host :=
  Build_host (Contents config) (fun _ => true) (fun _ => true)
    (fun _ => ["out/old.txt"; "out/notes.md"]) (fun _ => true) Unreadable
    (fun _ pattern => [pattern]) (fun file pattern => String.eqb file pattern) join_posix.

Definition options_for (dry clean : bool) : options :=
  Build_options "out/" clean false false dry false None false.

End HostScenarios.

(* ================================================================== *)
(** * Properties *)

(* ------------------------------------------------------------------ *)
(** ** The path transformation *)

Module TransformFacts.
Import Transform.

Lemma has_char_app (c : ascii) (a b : string) :
  Js.has_char c (a ++ b) = Js.has_char c a || Js.has_char c b.
Proof.
  induction a as [|x a IH]; simpl; [reflexivity|].
  rewrite IH, orb_assoc. reflexivity.
Qed.

Lemma split_pieces_lack_sep (c : ascii) (s : string) :
  Forall (fun piece => Js.has_char c piece = false) (Js.split c s).
Proof.
  induction s as [|x s IH]; simpl.
  - constructor; [reflexivity | constructor].
  - destruct (Ascii.eqb x c) eqn:Hx.
    + constructor; [reflexivity | exact IH].
    + destruct (Js.split c s) as [|h t] eqn:Hs.
      * constructor; [simpl; rewrite Hx; reflexivity | constructor].
      * inversion IH as [|? ? Hh Ht]; subst.
        constructor; [simpl; rewrite Hx, Hh; reflexivity | exact Ht].
Qed.

Lemma Forall_filter_sub {A} (P : A -> Prop) (f : A -> bool) (l : list A) :
  Forall P l -> Forall P (filter f l).
Proof.
  rewrite !Forall_forall. intros H x Hx. apply filter_In in Hx. apply H, Hx.
Qed.

Lemma join_lacks_char (c : ascii) (sep : string) (xs : list string) :
  Js.has_char c sep = false ->
  Forall (fun piece => Js.has_char c piece = false) xs ->
  Js.has_char c (Js.join sep xs) = false.
Proof.
  intros Hsep Hxs. unfold Js.join.
  induction Hxs as [|x xs Hx Hxs IH]; [reflexivity|].
  simpl. destruct xs as [|y ys]; [exact Hx|].
  rewrite !has_char_app, Hx, Hsep, IH. reflexivity.
Qed.

(** The escaped path is split on the native separator [path.sep], so the
    flat name never contains that separator, whatever the input path. *)
Lemma flattenedFileName_no_native_sep (p : platform) (sourceFile : string) :
  Js.has_char (pathSeparator p) (flattenedFileName p sourceFile) = false.
Proof.
  unfold flattenedFileName. apply join_lacks_char.
  - destruct p; reflexivity.
  - apply Forall_filter_sub, Forall_filter_sub, split_pieces_lack_sep.
Qed.

Lemma split_pieces_lack_absent (x c : ascii) (s : string) :
  Js.has_char x s = false ->
  Forall (fun piece => Js.has_char x piece = false) (Js.split c s).
Proof.
  induction s as [|y s IH]; simpl; intros Hs.
  - constructor; [reflexivity | constructor].
  - apply orb_false_iff in Hs as [Hy Hs]. specialize (IH Hs).
    destruct (Ascii.eqb y c).
    + constructor; [reflexivity | exact IH].
    + destruct (Js.split c s) as [|h t].
      * constructor; [simpl; rewrite Hy; reflexivity | constructor].
      * inversion IH as [|? ? Hh Ht]; subst.
        constructor; [simpl; rewrite Hy, Hh; reflexivity | exact Ht].
Qed.

Lemma escape_has_char (x : ascii) (s : string) :
  Ascii.eqb x "_"%char = false ->
  Js.has_char x (Js.escape_underscores s) = Js.has_char x s.
Proof.
  intros Hx. induction s as [|y s IH]; cbn [Js.escape_underscores Js.has_char]; [reflexivity|].
  destruct (Ascii.eqb y "_"%char) eqn:Hy; cbn [Js.has_char]; rewrite IH; [|reflexivity].
  apply Ascii.eqb_eq in Hy. subst y. rewrite (Ascii.eqb_sym "_"%char x), Hx. reflexivity.
Qed.

(** Splitting on a set of separators is splitting on [c] when, among the
    characters of the string, exactly [c] belongs to the set. *)
Lemma split_any_split (seps : list ascii) (c : ascii) (s : string) :
  (forall x, Js.has_char x s = true -> existsb (Ascii.eqb x) seps = Ascii.eqb x c) ->
  split_any seps s = Js.split c s.
Proof.
  induction s as [|y s IH]; simpl; intros H; [reflexivity|].
  rewrite IH.
  - rewrite (H y) by (rewrite Ascii.eqb_refl; reflexivity). reflexivity.
  - intros x Hx. apply H. rewrite Hx, orb_true_r. reflexivity.
Qed.

(** Claim C8: the paths [runRule] receives come from [globSync], which
    returns them with the native separator; on Windows a file name cannot
    contain ['/'], so such a path has no ['/']. For every such path, on
    either platform, the transformation gives the same flat name as
    splitting on both ['/'] and the native separator, and the flat name
    contains no path separator character. *)
Theorem flattenedFileName_no_separator (p : platform) (sourceFile : string) :
  (p = Win32 -> Js.has_char "/" sourceFile = false) ->
  flattenedFileName p sourceFile = flattenedFileName_spec p sourceFile /\
  Js.has_char "/" (flattenedFileName p sourceFile) = false /\
  Js.has_char (pathSeparator p) (flattenedFileName p sourceFile) = false.
Proof.
  intros Hrecv. split; [|split; [|apply flattenedFileName_no_native_sep]].
  - unfold flattenedFileName, flattenedFileName_spec. f_equal. f_equal. f_equal.
    symmetry. apply split_any_split. intros x Hx.
    destruct p; simpl.
    + destruct (Ascii.eqb x "/"%char); reflexivity.
    + specialize (Hrecv eq_refl).
      destruct (Ascii.eqb x "/"%char) eqn:Hs; simpl; [|rewrite orb_false_r; reflexivity].
      apply Ascii.eqb_eq in Hs. subst x.
      rewrite escape_has_char, Hrecv in Hx by reflexivity. discriminate.
  - destruct p; [apply (flattenedFileName_no_native_sep Posix)|].
    unfold flattenedFileName. apply join_lacks_char; [reflexivity|].
    apply Forall_filter_sub, Forall_filter_sub, split_pieces_lack_absent.
    rewrite escape_has_char by reflexivity. apply Hrecv. reflexivity.
Qed.

(** Claim C1 (code bug): the transformation is not injective on paths
    whose component sequences differ: ["a_/b"] (file [b] in directory
    [a_]) and ["a/_b"] (file [_b] in directory [a]) both flatten to
    ["a___b"], because a doubled underscore next to the single-underscore
    separator cannot be told apart. *)
Theorem flattenedFileName_collision_underscore_edge :
  components Posix "a_/b" = ["a_"; "b"] /\
  components Posix "a/_b" = ["a"; "_b"] /\
  flattenedFileName Posix "a_/b" = "a___b" /\
  flattenedFileName Posix "a/_b" = "a___b".
Proof. repeat split; reflexivity. Qed.

(** Claim C2 (code bug): the ["node_modules"] filter runs after the
    underscores have been doubled, so it never fires: ["node_modules/x.js"]
    and ["x.js"] have the same components once ["node_modules"] is
    dropped, yet flatten to different names (while a ["."] segment is
    dropped as intended). *)
Theorem flattenedFileName_node_modules_kept :
  components Posix "node_modules/x.js" = components Posix "x.js" /\
  flattenedFileName Posix "node_modules/x.js" = "node__modules_x.js" /\
  flattenedFileName Posix "x.js" = "x.js" /\
  flattenedFileName Posix "./x.js" = "x.js".
Proof. repeat split; reflexivity. Qed.

End TransformFacts.

(* ------------------------------------------------------------------ *)
(** ** [parseFileSize] *)

Module SizeFacts.
Import SizeArg.
Local Open Scope Z_scope.

Lemma span_digits_spec (s : string) :
  let '(d, r) := span_digits s in
  s = (d ++ r)%string /\ all_digits d = true /\
  (forall c r', r = String c r' -> is_digit c = false).
Proof.
  induction s as [|c s IH]; simpl.
  - split; [reflexivity|split; [reflexivity|discriminate]].
  - destruct (is_digit c) eqn:Hc.
    + destruct (span_digits s) as [d r]. destruct IH as [-> [Hd Hr]].
      simpl. rewrite Hc, Hd. split; [reflexivity|split; [reflexivity|exact Hr]].
    + split; [reflexivity|split; [reflexivity|]]. intros c' r' H. injection H as <- <-. exact Hc.
Qed.

Lemma span_digits_app (d r : string) :
  all_digits d = true -> (forall c r', r = String c r' -> is_digit c = false) ->
  span_digits (d ++ r) = (d, r).
Proof.
  intros Hd Hr. induction d as [|c d IH]; simpl.
  - destruct r as [|c r']; [reflexivity|]. simpl. rewrite (Hr c r' eq_refl). reflexivity.
  - simpl in Hd. apply andb_prop in Hd as [Hc Hd]. rewrite Hc, (IH Hd). reflexivity.
Qed.

Lemma to_upper_inv (c d : ascii) :
  to_upper c = d -> c = d \/ c = ascii_of_nat (nat_of_ascii d + 32).
Proof.
  unfold to_upper. destruct ((97 <=? nat_of_ascii c)%nat && (nat_of_ascii c <=? 122)%nat) eqn:E.
  - intros <-. right. apply andb_prop in E as [E1 E2].
    apply Nat.leb_le in E1. apply Nat.leb_le in E2.
    rewrite nat_ascii_embedding by lia. replace (nat_of_ascii c - 32 + 32)%nat with (nat_of_ascii c) by lia.
    symmetry. apply ascii_nat_embedding.
  - intros <-. left. reflexivity.
Qed.

Lemma upper_empty (u : string) : upper u = EmptyString -> u = EmptyString.
Proof. destruct u; [reflexivity|discriminate]. Qed.

Ltac pick_in := repeat (first [left; reflexivity | right]).

Lemma unit_exponent_spelling (u : string) (n : Z) :
  unit_exponent u = Some n <-> unit_spelling u n.
Proof.
  split.
  - unfold unit_exponent, unit_spelling.
    destruct (String.eqb_spec (upper u) "B") as [E|_].
    { intros H. injection H as <-. left. split; [reflexivity|].
      destruct u as [|c1 u]; [discriminate|]. simpl in E. injection E as E1 E2.
      apply upper_empty in E2 as ->.
      destruct (to_upper_inv _ _ E1) as [->| ->]; pick_in. }
    destruct (String.eqb_spec (upper u) "KB") as [E|_].
    { intros H. injection H as <-. right; left. split; [reflexivity|].
      destruct u as [|c1 [|c2 u]]; try discriminate. simpl in E. injection E as E1 E2 E3.
      apply upper_empty in E3 as ->.
      destruct (to_upper_inv _ _ E1) as [->| ->]; destruct (to_upper_inv _ _ E2) as [->| ->]; pick_in. }
    destruct (String.eqb_spec (upper u) "MB") as [E|_].
    { intros H. injection H as <-. right; right; left. split; [reflexivity|].
      destruct u as [|c1 [|c2 u]]; try discriminate. simpl in E. injection E as E1 E2 E3.
      apply upper_empty in E3 as ->.
      destruct (to_upper_inv _ _ E1) as [->| ->]; destruct (to_upper_inv _ _ E2) as [->| ->]; pick_in. }
    destruct (String.eqb_spec (upper u) "GB") as [E|_].
    { intros H. injection H as <-. right; right; right. split; [reflexivity|].
      destruct u as [|c1 [|c2 u]]; try discriminate. simpl in E. injection E as E1 E2 E3.
      apply upper_empty in E3 as ->.
      destruct (to_upper_inv _ _ E1) as [->| ->]; destruct (to_upper_inv _ _ E2) as [->| ->]; pick_in. }
    discriminate.
  - unfold unit_spelling.
    intros [[-> H]|[[-> H]|[[-> H]|[-> H]]]]; simpl in H;
      repeat (destruct H as [<-|H]; [reflexivity|]); destruct H.
Qed.

Lemma unit_spelling_head (u : string) (n : Z) :
  unit_spelling u n -> forall c r, u = String c r -> is_digit c = false /\ c <> "."%char.
Proof.
  unfold unit_spelling.
  intros [[_ H]|[[_ H]|[[_ H]|[_ H]]]] c r Hu; simpl in H;
    repeat (destruct H as [<-|H]; [injection Hu as <- _; split; [reflexivity|discriminate]|]);
    destruct H.
Qed.

Lemma unit_spelling_nonempty (u : string) (n : Z) : unit_spelling u n -> u <> EmptyString.
Proof.
  intros H ->. apply unit_exponent_spelling in H. discriminate.
Qed.

(** [match_size] succeeds exactly on the strings of the specified format. *)
Lemma match_size_format (s : string) :
  match_size s <> None <-> spec_size_format s.
Proof.
  split.
  - unfold match_size. pose proof (span_digits_spec s) as Hs.
    destruct (span_digits s) as [i r]. destruct Hs as [-> [Hi Hr]].
    destruct (String.eqb_spec i EmptyString) as [_|Hne]; [intros H; exfalso; apply H; reflexivity|].
    destruct r as [|c r'].
    + unfold match_unit. simpl. intros H. exfalso. apply H. reflexivity.
    + destruct (Ascii.eqb_spec c ".") as [->|Hc].
      * pose proof (span_digits_spec r') as Hs'.
        destruct (span_digits r') as [f r'']. destruct Hs' as [-> [Hf _]].
        destruct (String.eqb_spec f EmptyString) as [_|Hfne]; [intros H; exfalso; apply H; reflexivity|].
        unfold match_unit. destruct (unit_exponent r'') as [n|] eqn:Hu; [|intros H; exfalso; apply H; reflexivity].
        intros _. exists i, (String "." f), r'', n.
        split; [reflexivity|split; [exact Hne|split; [exact Hi|split]]].
        -- right. exists f. split; [reflexivity|split; [exact Hfne|exact Hf]].
        -- apply unit_exponent_spelling, Hu.
      * unfold match_unit. destruct (unit_exponent (String c r')) as [n|] eqn:Hu;
          [|intros H; exfalso; apply H; reflexivity].
        intros _. exists i, EmptyString, (String c r'), n.
        split; [reflexivity|split; [exact Hne|split; [exact Hi|split]]].
        -- left. reflexivity.
        -- apply unit_exponent_spelling, Hu.
  - intros [i [f [u [n [-> [Hne [Hi [Hf Hu]]]]]]]].
    pose proof (unit_spelling_head u n Hu) as Hhead.
    destruct u as [|c r]; [exfalso; apply (unit_spelling_nonempty _ _ Hu); reflexivity|].
    destruct (Hhead c r eq_refl) as [Hcd Hcdot].
    unfold match_size. destruct Hf as [->|[f' [-> [Hf'ne Hf']]]].
    + simpl. rewrite (span_digits_app i (String c r) Hi) by (intros c' r' H; injection H as <- _; exact Hcd).
      destruct (String.eqb_spec i EmptyString) as [E|_]; [contradiction|].
      destruct (Ascii.eqb_spec c ".") as [E|_]; [contradiction|].
      unfold match_unit. apply unit_exponent_spelling in Hu. rewrite Hu. discriminate.
    + simpl. rewrite (span_digits_app i _ Hi) by (intros c' r' H; injection H as <- _; reflexivity).
      destruct (String.eqb_spec i EmptyString) as [E|_]; [contradiction|].
      rewrite Ascii.eqb_refl.
      rewrite (span_digits_app f' (String c r) Hf') by (intros c' r' H; injection H as <- _; exact Hcd).
      destruct (String.eqb_spec f' EmptyString) as [E|_]; [contradiction|].
      unfold match_unit. apply unit_exponent_spelling in Hu. rewrite Hu. discriminate.
Qed.

Lemma match_size_integer (i u : string) (n : Z) :
  i <> EmptyString -> all_digits i = true -> unit_spelling u n ->
  match_size (i ++ u) = Some (i, EmptyString, n).
Proof.
  intros Hne Hi Hu. pose proof (unit_spelling_head u n Hu) as Hhead.
  destruct u as [|c r]; [exfalso; apply (unit_spelling_nonempty _ _ Hu); reflexivity|].
  destruct (Hhead c r eq_refl) as [Hcd Hcdot].
  unfold match_size.
  rewrite (span_digits_app i (String c r) Hi) by (intros c' r' H; injection H as <- _; exact Hcd).
  destruct (String.eqb_spec i EmptyString) as [E|_]; [contradiction|].
  destruct (Ascii.eqb_spec c ".") as [E|_]; [contradiction|].
  unfold match_unit. apply unit_exponent_spelling in Hu. rewrite Hu. reflexivity.
Qed.

Lemma append_empty_r (s : string) : (s ++ EmptyString)%string = s.
Proof. induction s as [|c s IH]; simpl; [|rewrite IH]; reflexivity. Qed.

Lemma digits_value_bounds (acc : Z) (s : string) :
  0 <= acc -> all_digits s = true -> 0 <= digits_value acc s.
Proof.
  revert acc. induction s as [|c s IH]; intros acc Hacc Hs; simpl; [exact Hacc|].
  simpl in Hs. apply andb_prop in Hs as [Hc Hs]. apply IH; [|exact Hs].
  unfold is_digit in Hc. apply andb_prop in Hc as [Hc _]. apply Nat.leb_le in Hc. lia.
Qed.

(** Below [2^53], the integer part is read exactly, and scaling by [2^k]
    and flooring is exact as well. *)
Lemma floor_scaled_exact (N k e : Z) :
  0 < N < 2 ^ 53 -> 0 <= k <= 30 -> e <= 0 ->
  floor (mul_pow2 (overflow_check (round_half_even (scaled_num N e) (scaled_den 1 e)) e) k)
  = NFin (N * 2 ^ k).
Proof.
  intros HN Hk He.
  assert (Hsc : scaled_num N e = N * 2 ^ (- e) /\ scaled_den 1 e = 1).
  { unfold scaled_num, scaled_den. destruct (Z.leb_spec 0 e).
    - replace e with 0 by lia. simpl. lia.
    - split; reflexivity. }
  destruct Hsc as [-> ->].
  assert (Hr : round_half_even (N * 2 ^ (- e)) 1 = N * 2 ^ (- e)).
  { unfold round_half_even. rewrite Z.div_1_r, Z.mod_1_r. reflexivity. }
  rewrite Hr.
  assert (Hpk : 0 < 2 ^ k) by (apply Z.pow_pos_nonneg; lia).
  assert (Hbig : N * 2 ^ k < 2 ^ 1024).
  { assert (2 ^ k <= 2 ^ 30) by (apply Z.pow_le_mono_r; lia).
    assert (Hc : 2 ^ 53 * 2 ^ 30 < 2 ^ 1024) by reflexivity. nia. }
  assert (Hov : overflow_check (N * 2 ^ (- e)) e = DFin (N * 2 ^ (- e)) e).
  { unfold overflow_check. destruct (Z.leb_spec 0 e); [|reflexivity].
    replace e with 0 by lia. rewrite Z.opp_0, Z.pow_0_r, !Z.mul_1_r.
    destruct (Z.leb_spec (2 ^ 1024) N); [lia|reflexivity]. }
  rewrite Hov. unfold mul_pow2, overflow_check, floor.
  destruct (Z.leb_spec 0 (e + k)) as [Hek|Hek].
  - assert (Hpow : 2 ^ (- e) * 2 ^ (e + k) = 2 ^ k).
    { rewrite <- Z.pow_add_r by lia. f_equal. lia. }
    rewrite <- Z.mul_assoc, Hpow.
    destruct (Z.leb_spec (2 ^ 1024) (N * 2 ^ k)); [lia|]. simpl.
    destruct (Z.leb_spec 0 (e + k)); [|lia]. rewrite <- Z.mul_assoc, Hpow. reflexivity.
  - simpl. destruct (Z.leb_spec 0 (e + k)); [lia|].
    assert (Hpow : 2 ^ (- e) = 2 ^ k * 2 ^ (- (e + k))).
    { rewrite <- Z.pow_add_r by lia. f_equal. lia. }
    rewrite Hpow, Z.mul_assoc, Z.div_mul; [reflexivity|].
    apply Z.pow_nonzero; lia.
Qed.

Lemma parseFloat_integer_exact (N k : Z) :
  0 <= N < 2 ^ 53 -> 0 <= k <= 30 ->
  floor (mul_pow2 (round_binary64 N 1) k) = NFin (N * 2 ^ k).
Proof.
  intros HN Hk. unfold round_binary64.
  destruct (Z.eqb_spec N 0) as [->|Hn].
  - assert (Hk' : (0 <=? k) = true) by (apply Z.leb_le; lia).
    unfold mul_pow2, overflow_check. rewrite Z.mul_0_l.
    change (2 ^ 1024 <=? 0) with false. rewrite andb_false_r. unfold floor.
    destruct (Z.leb_spec 0 (0 + k)); [|lia]. rewrite !Z.mul_0_l. reflexivity.
  - cbv zeta.
    match goal with |- floor (mul_pow2 (overflow_check _ ?e) k) = _ =>
      apply (floor_scaled_exact N k e); [lia|lia|] end.
    assert (Hlog : Z.log2 N < 53) by (apply Z.log2_lt_pow2; lia).
    change (Z.log2 1) with 0.
    destruct (_ <? 2 ^ 52); lia.
Qed.

(** Claim C9 (amended): [parseFileSize] accepts exactly the strings made
    of one or more ASCII digits, optionally a point and one or more
    digits, immediately followed by B, KB, MB or GB in any letter case, and
    throws on every other string; for an integer numeral below [2^53] it
    returns exactly [value * 1024^n]. (In general it returns [Math.floor] of
    the double-precision product, which can differ from
    [floor(value * 1024^n)].) *)
Theorem parseFileSize_format_and_integers (s : string) :
  (parseFileSize s <> None <-> spec_size_format s) /\
  (forall i u n, s = (i ++ u)%string -> i <> EmptyString -> all_digits i = true ->
     unit_spelling u n -> digits_value 0 i < 2 ^ 53 ->
     parseFileSize s = Some (NFin (digits_value 0 i * 1024 ^ n))).
Proof.
  split.
  - rewrite <- match_size_format. unfold parseFileSize.
    destruct (match_size s) as [[[i f] n]|]; [split; intros _; discriminate | tauto].
  - intros i u n -> Hne Hi Hu Hlt. unfold parseFileSize.
    rewrite (match_size_integer i u n Hne Hi Hu). unfold parseFloat.
    rewrite append_empty_r. simpl (10 ^ Z.of_nat (String.length EmptyString)).
    assert (Hn : n = 0 \/ n = 1 \/ n = 2 \/ n = 3) by (unfold unit_spelling in Hu; lia).
    assert (H0 : 0 <= digits_value 0 i) by (apply digits_value_bounds; [lia|exact Hi]).
    f_equal. rewrite parseFloat_integer_exact by lia.
    destruct Hn as [-> | [-> | [-> | ->]]]; reflexivity.
Qed.

(** Claim C9 (counterexample): ["99999999999999999999B"] has the specified
    format, but [Number.parseFloat] rounds the 20-digit numeral to the
    nearest double, [10^20], so [parseFileSize] returns [10^20] rather than
    [floor(99999999999999999999 * 1024^0)]. *)
Lemma parseFileSize_rounds_long_numerals :
  spec_size_format "99999999999999999999B" /\
  parseFileSize "99999999999999999999B" = Some (NFin 100000000000000000000) /\
  parseFileSize "99999999999999999999B" <> Some (NFin 99999999999999999999).
Proof.
  split; [|split; [vm_compute; reflexivity|intros H; vm_compute in H; discriminate H]].
  exists "99999999999999999999"%string, EmptyString, "B"%string, 0.
  split; [reflexivity|split; [discriminate|split; [reflexivity|split]]].
  - left. reflexivity.
  - left. split; [reflexivity|left; reflexivity].
Qed.

Lemma parseFileSize_format_and_integers_witness :
  spec_size_format "500kB" /\ parseFileSize "500kB" = Some (NFin 512000).
Proof.
  destruct (parseFileSize_format_and_integers "500kB") as [[H1 _] H2]. split.
  - apply H1. vm_compute. discriminate.
  - refine (H2 "500" "kB" 1 eq_refl _ eq_refl _ eq_refl).
    + discriminate.
    + right; left. split; [reflexivity|pick_in].
Defined.

(** A non-negative integer up to [2^53] is a binary64 value: rounding
    leaves it unchanged. *)
Lemma round_binary64_int (n : Z) :
  0 <= n <= 2 ^ 53 -> floor (round_binary64 n 1) = NFin n.
Proof.
  intros [H0 H1]. unfold round_binary64.
  destruct (Z.eqb_spec n 0) as [->|Hn]; [reflexivity|].
  destruct (Z.eq_dec n (2 ^ 53)) as [->|Hlt]; [vm_compute; reflexivity|].
  assert (Hpos : 0 < n) by lia.
  pose proof (Z.log2_spec n Hpos) as [Hk1 Hk2].
  pose proof (Z.log2_nonneg n).
  assert (Hk : Z.log2 n < 53).
  { destruct (Z.lt_ge_cases (Z.log2 n) 53) as [|Hge]; [assumption|].
    exfalso. assert (2 ^ 53 <= 2 ^ Z.log2 n) by (apply Z.pow_le_mono_r; lia). lia. }
  change (Z.log2 1) with 0.
  set (k := Z.log2 n) in *.
  assert (Hq : scaled_num n (k - 0 - 52) / scaled_den 1 (k - 0 - 52)
               = n * 2 ^ (52 - k)).
  { unfold scaled_num, scaled_den.
    destruct (Z.leb_spec 0 (k - 0 - 52)).
    - replace k with 52 by lia. simpl. rewrite Z.div_1_r. lia.
    - rewrite Z.div_1_r. replace (- (k - 0 - 52)) with (52 - k) by lia. reflexivity. }
  assert (Hbig : 2 ^ 52 <= n * 2 ^ (52 - k)).
  { replace (2 ^ 52) with (2 ^ k * 2 ^ (52 - k)) by (rewrite <- Z.pow_add_r; [f_equal|..]; lia).
    apply Z.mul_le_mono_nonneg_r; [apply Z.pow_nonneg|]; lia. }
  cbv zeta. rewrite Hq.
  destruct (Z.ltb_spec (n * 2 ^ (52 - k)) (2 ^ 52)); [lia|].
  rewrite Z.max_l by lia.
  assert (Hr : round_half_even (scaled_num n (k - 0 - 52))
                 (scaled_den 1 (k - 0 - 52)) = n * 2 ^ (52 - k)).
  { assert (Hm : scaled_num n (k - 0 - 52) mod scaled_den 1 (k - 0 - 52) = 0).
    { unfold scaled_num, scaled_den.
      destruct (Z.leb_spec 0 (k - 0 - 52)); [|apply Z.mod_1_r].
      replace (1 * 2 ^ (k - 0 - 52)) with 1 by (replace k with 52 by lia; reflexivity).
      apply Z.mod_1_r. }
    assert (Hd : 0 < scaled_den 1 (k - 0 - 52)).
    { unfold scaled_den. destruct (Z.leb_spec 0 (k - 0 - 52)); [|lia].
      rewrite Z.mul_1_l. apply Z.pow_pos_nonneg; lia. }
    unfold round_half_even. cbv zeta. rewrite Hq, Hm.
    destruct (Z.compare_spec (2 * 0) (scaled_den 1 (k - 0 - 52))); [lia|reflexivity|lia]. }
  rewrite Hr. unfold overflow_check, floor.
  destruct (Z.leb_spec 0 (k - 0 - 52)).
  - replace k with 52 by lia. simpl.
    change (Z.pow_pos 2 1024) with (2 ^ 1024). rewrite !Z.mul_1_r. destruct (Z.leb_spec (2 ^ 1024) n); [lia|]. simpl. apply f_equal, Z.mul_1_r.
  - cbn [andb]. replace (- (k - 0 - 52)) with (52 - k) by lia. rewrite Z.div_mul by (apply Z.pow_nonzero; lia). destruct (Z.leb_spec 0 (k - 0 - 52)); [lia|reflexivity].
Qed.

End SizeFacts.

(* ------------------------------------------------------------------ *)
(** ** The rule engine *)

Module EngineFacts.
Import Transform Engine.
Local Open Scope list_scope.

Section Run.
Variable cfg : config.
Variable sys : fs.

Lemma processFile_outcome (st : state) (f : string) :
  exists o, outcomes (fst (processFile cfg sys st f)) = outcomes st ++ [(f, o)].
Proof.
  unfold processFile.
  destruct (statSize sys f) as [size|]; [|eexists; reflexivity].
  destruct (exceeds (maxFileSize cfg) size); [eexists; reflexivity|].
  destruct (existsb _ _); [eexists; reflexivity|].
  destruct (dryRun cfg); [eexists; reflexivity|].
  destruct (copyFileSync _ _ _); eexists; reflexivity.
Qed.

Lemma states_after_app (a b : list string) (st : state) :
  states_after cfg sys (a ++ b) st = states_after cfg sys b (states_after cfg sys a st).
Proof. unfold states_after. apply fold_left_app. Qed.

Lemma states_after_ind (I : state -> Prop) :
  (forall st f, I st -> I (fst (processFile cfg sys st f))) ->
  forall files st, I st -> I (states_after cfg sys files st).
Proof.
  intros Hstep files. induction files as [|f files IH]; intros st Hst; simpl; auto.
Qed.

Lemma outcomes_extend (files : list string) (st : state) :
  exists L, outcomes (states_after cfg sys files st) = outcomes st ++ L /\ map fst L = files.
Proof.
  revert st. induction files as [|f files IH]; intros st.
  - exists []. simpl. rewrite app_nil_r. split; reflexivity.
  - simpl. destruct (processFile_outcome st f) as [o Ho].
    destruct (IH (fst (processFile cfg sys st f))) as [L [HL HmL]].
    exists ((f, o) :: L). rewrite HL, Ho, <- app_assoc. simpl. rewrite HmL. split; reflexivity.
Qed.

Lemma processFiles_state (files : list string) (n : nat) (st : state) :
  snd (fold_left (fun '(n, st) f => let '(st', k) := processFile cfg sys st f in (n + k, st')%nat)
         files (n, st)) = states_after cfg sys files st.
Proof.
  revert n st. induction files as [|f files IH]; intros n st; simpl; [reflexivity|].
  destruct (processFile cfg sys st f) as [st' k]. rewrite IH. reflexivity.
Qed.

Lemma runRule_state (st : state) (rule : string) (denyRules : list string) :
  snd (runRule cfg sys st rule denyRules)
  = states_after cfg sys (applyDenyRules cfg denyRules (globSync cfg rule)) st.
Proof.
  unfold runRule. destruct (applyDenyRules cfg denyRules (globSync cfg rule)) eqn:E.
  - reflexivity.
  - unfold processFiles. rewrite <- E. apply processFiles_state.
Qed.

(** The final accumulators of a run are those obtained by processing all
    surviving candidates of all rules, in rule order. *)
Lemma run_state (copyRules denyRules : list string) :
  snd (run cfg sys copyRules denyRules) = states_after cfg sys (survivors cfg copyRules denyRules) init.
Proof.
  unfold run, survivors. generalize 0%nat init.
  induction copyRules as [|rule rules IH]; intros n st; simpl; [reflexivity|].
  destruct (runRule cfg sys st rule denyRules) as [k st'] eqn:E.
  rewrite IH, states_after_app.
  replace st' with (snd (runRule cfg sys st rule denyRules)) by (rewrite E; reflexivity).
  rewrite runRule_state. reflexivity.
Qed.

(** Case analysis on the branches of the loop body. *)
Ltac processFile_cases f :=
  unfold processFile;
  let Hsz := fresh "Hsz" in let Hex := fresh "Hex" in let Hdup := fresh "Hdup" in
  let Hdry := fresh "Hdry" in let Hcp := fresh "Hcp" in
  destruct (statSize sys f) as [?size|] eqn:Hsz;
  [ destruct (exceeds (maxFileSize cfg) _) eqn:Hex;
    [ | destruct (existsb _ _) eqn:Hdup;
        [ | destruct (dryRun cfg) eqn:Hdry;
            [ | destruct (copyFileSync _ _ _) eqn:Hcp ] ] ]
  | ]; unfold record_error, record_skip, record_would_copy, record_copy; simpl.

Lemma in_snoc {A} (x y : A) (l : list A) : In x (l ++ [y]) <-> In x l \/ x = y.
Proof. rewrite in_app_iff. simpl. intuition. Qed.

Lemma error_invariant_step (st : state) (f : string) :
  let I st :=
    (forall p o, In (p, o) (outcomes st) -> statSize sys p = None -> o = Error) /\
    (forall p, In (p, Error) (outcomes st) ->
       statSize sys p = None \/ (dryRun cfg = false /\ copyFileSync sys p (target cfg p) = false)) /\
    errorFiles st = map fst (filter is_error (outcomes st)) in
  I st -> I (fst (processFile cfg sys st f)).
Proof.
  intros I [H1 [H2 H3]]. unfold I.
  processFile_cases f; (split; [|split]);
    try (intros p o Hin; apply in_snoc in Hin as [Hin|Hin]; [now apply (H1 p o) | inversion Hin; subst; congruence]);
    try (intros p Hin; apply in_snoc in Hin as [Hin|Hin]; [now apply H2 | inversion Hin; subst; first [left; congruence | congruence]]);
    try (rewrite filter_app, map_app, H3; simpl; rewrite ?app_nil_r; reflexivity).
  intros p Hin; apply in_snoc in Hin as [Hin|Hin]; [now apply H2 | inversion Hin; subst].
  right. split; [reflexivity | exact Hcp].
Qed.

Lemma run_outcome_paths (copyRules denyRules : list string) :
  map fst (outcomes (snd (run cfg sys copyRules denyRules))) = survivors cfg copyRules denyRules.
Proof.
  rewrite run_state.
  destruct (outcomes_extend (survivors cfg copyRules denyRules) init) as [L [HL HmL]].
  rewrite HL. exact HmL.
Qed.

Lemma copied_invariant_step (st : state) (f : string) :
  copiedFiles st = map (fun e => target cfg (fst e)) (filter is_copied (outcomes st)) ->
  copiedFiles (fst (processFile cfg sys st f))
  = map (fun e => target cfg (fst e)) (filter is_copied (outcomes (fst (processFile cfg sys st f)))).
Proof.
  intros H. processFile_cases f; rewrite filter_app, map_app, <- H; simpl;
    rewrite ?app_nil_r; reflexivity.
Qed.

Lemma copied_invariant (files : list string) :
  let st := states_after cfg sys files init in
  copiedFiles st = map (fun e => target cfg (fst e)) (filter is_copied (outcomes st)).
Proof.
  apply (states_after_ind (fun st =>
    copiedFiles st = map (fun e => target cfg (fst e)) (filter is_copied (outcomes st)))).
  - intros st f. apply copied_invariant_step.
  - reflexivity.
Qed.

Lemma copy_failure_invariant_step (st : state) (f : string) :
  let I st :=
    copiedFiles st = map (fun e => target cfg (fst e)) (filter is_copied (outcomes st)) /\
    (forall p o size, In (p, o) (outcomes st) -> dryRun cfg = false ->
       statSize sys p = Some size -> exceeds (maxFileSize cfg) size = false ->
       copyFileSync sys p (target cfg p) = false ->
       o = Error \/
       (o = SkippedDuplicate /\ exists q, In (q, Copied) (outcomes st) /\ target cfg q = target cfg p)) in
  I st -> I (fst (processFile cfg sys st f)).
Proof.
  intros I [Hc H]. unfold I. split; [apply copied_invariant_step, Hc|].
  destruct (processFile_outcome st f) as [o' Ho']. rewrite Ho'.
  intros p o size Hin Hdry Hsz Hex Hcp. apply in_snoc in Hin as [Hin|Hin].
  - destruct (H p o size Hin Hdry Hsz Hex Hcp) as [E|[E [q [Hq Ht]]]]; [left; exact E|].
    right. split; [exact E|]. exists q. split; [apply in_app_iff; left; exact Hq|exact Ht].
  - injection Hin as -> ->.
    unfold processFile in Ho'. rewrite Hsz, Hex in Ho'.
    change (path_join cfg (targetPath cfg) (flattenedFileName (platform_of cfg) f))
      with (target cfg f) in Ho'.
    destruct (existsb (String.eqb (target cfg f)) (copiedFiles st)) eqn:Hdup.
    + apply app_inj_tail in Ho' as [_ Ho']. injection Ho' as <-.
      right. split; [reflexivity|].
      apply existsb_exists in Hdup as [x [Hx Heq]]. apply String.eqb_eq in Heq. subst x.
      rewrite Hc in Hx. apply in_map_iff in Hx as [[q oq] [Ht Hx]].
      apply filter_In in Hx as [Hx Hcq]. destruct oq; try discriminate Hcq.
      exists q. split; [apply in_app_iff; left; exact Hx|exact Ht].
    + rewrite Hdry, Hcp in Ho'. apply app_inj_tail in Ho' as [_ Ho'].
      injection Ho' as <-. left. reflexivity.
Qed.

(** Claim C7: a file-system error on one path (reading its size, or
    copying it) gives that path the outcome [Error] and nothing else: every
    surviving candidate of every rule is still processed, in order; a path
    whose size cannot be read gets [Error]; in a real run, a path that
    passes the size check and whose copy fails gets [Error], unless it was
    not copied at all because an earlier file of the run was already
    copied to its target path; an [Error] outcome only arises from such a
    failure; and [errorFiles] lists exactly the paths with outcome
    [Error]. *)
Theorem run_per_path_error_isolation (copyRules denyRules : list string) :
  let st := snd (run cfg sys copyRules denyRules) in
  map fst (outcomes st) = survivors cfg copyRules denyRules /\
  (forall p o, In (p, o) (outcomes st) -> statSize sys p = None -> o = Error) /\
  (forall p o size, In (p, o) (outcomes st) -> dryRun cfg = false ->
     statSize sys p = Some size -> exceeds (maxFileSize cfg) size = false ->
     copyFileSync sys p (target cfg p) = false ->
     o = Error \/
     (o = SkippedDuplicate /\ exists q, In (q, Copied) (outcomes st) /\ target cfg q = target cfg p)) /\
  (forall p, In (p, Error) (outcomes st) ->
     statSize sys p = None \/ (dryRun cfg = false /\ copyFileSync sys p (target cfg p) = false)) /\
  errorFiles st = map fst (filter is_error (outcomes st)).
Proof.
  cbv zeta. split; [apply run_outcome_paths|].
  rewrite run_state.
  assert (Hcopy : forall p o size,
      In (p, o) (outcomes (states_after cfg sys (survivors cfg copyRules denyRules) init)) ->
      dryRun cfg = false -> statSize sys p = Some size -> exceeds (maxFileSize cfg) size = false ->
      copyFileSync sys p (target cfg p) = false ->
      o = Error \/
      (o = SkippedDuplicate /\ exists q,
         In (q, Copied) (outcomes (states_after cfg sys (survivors cfg copyRules denyRules) init)) /\
         target cfg q = target cfg p)).
  { apply (states_after_ind (fun st =>
        copiedFiles st = map (fun e => target cfg (fst e)) (filter is_copied (outcomes st)) /\
        (forall p o size, In (p, o) (outcomes st) -> dryRun cfg = false ->
           statSize sys p = Some size -> exceeds (maxFileSize cfg) size = false ->
           copyFileSync sys p (target cfg p) = false ->
           o = Error \/
           (o = SkippedDuplicate /\ exists q, In (q, Copied) (outcomes st) /\ target cfg q = target cfg p)))).
    - intros st f. apply copy_failure_invariant_step.
    - split; [reflexivity|intros ? ? ? []]. }
  assert (Herr : forall files, let st := states_after cfg sys files init in
      (forall p o, In (p, o) (outcomes st) -> statSize sys p = None -> o = Error) /\
      (forall p, In (p, Error) (outcomes st) ->
         statSize sys p = None \/ (dryRun cfg = false /\ copyFileSync sys p (target cfg p) = false)) /\
      errorFiles st = map fst (filter is_error (outcomes st))).
  { intros files. apply (states_after_ind (fun st =>
      (forall p o, In (p, o) (outcomes st) -> statSize sys p = None -> o = Error) /\
      (forall p, In (p, Error) (outcomes st) ->
         statSize sys p = None \/ (dryRun cfg = false /\ copyFileSync sys p (target cfg p) = false)) /\
      errorFiles st = map fst (filter is_error (outcomes st)))).
    - intros st f. apply error_invariant_step.
    - simpl. split; [intros ? ? []|split; [intros ? []|reflexivity]]. }
  destruct (Herr (survivors cfg copyRules denyRules)) as [H1 [H2 H3]].
  split; [exact H1|split; [exact Hcopy|split; [exact H2|exact H3]]].
Qed.

Lemma filter_filter_and {A} (g h : A -> bool) (l : list A) :
  filter g (filter h l) = filter (fun x => h x && g x) l.
Proof.
  induction l as [|x l IH]; simpl; [reflexivity|].
  destruct (h x); simpl; [destruct (g x); simpl|]; rewrite IH; reflexivity.
Qed.

Lemma filter_const_true {A} (l : list A) : filter (fun _ => true) l = l.
Proof. induction l as [|x l IH]; simpl; [|rewrite IH]; reflexivity. Qed.

Lemma forallb_permutation {A} (g : A -> bool) (l l' : list A) :
  Permutation l l' -> forallb g l = forallb g l'.
Proof.
  induction 1 as [| x l l' _ IH | x y l | l l' l'' _ IH1 _ IH2]; simpl.
  - reflexivity.
  - rewrite IH. reflexivity.
  - rewrite !andb_assoc, (andb_comm (g y)). reflexivity.
  - congruence.
Qed.

(** Sequential filtering by the exclusion rules keeps exactly the files
    that match none of them. *)
Lemma applyDenyRules_conj (denyRules files : list string) :
  applyDenyRules cfg denyRules files
  = filter (fun file => forallb (fun d => negb (minimatch cfg file d)) denyRules) files.
Proof.
  unfold applyDenyRules. revert files.
  induction denyRules as [|d ds IH]; intros files; simpl.
  - symmetry. apply filter_const_true.
  - rewrite IH, filter_filter_and. reflexivity.
Qed.

(** Claim C5: the survivors of an inclusion rule's candidates are exactly
    the candidates matching no exclusion rule; permuting the exclusion
    rules changes nothing in the run (outcomes, statistics, copies); and a
    file matching any exclusion rule never receives an outcome at all, in
    particular never [Copied] or [WouldCopy]. *)
Theorem exclusion_filter_exact_and_commutative (copyRules denyRules files : list string) :
  applyDenyRules cfg denyRules files
    = filter (fun file => forallb (fun d => negb (minimatch cfg file d)) denyRules) files /\
  (forall denyRules', Permutation denyRules denyRules' ->
     run cfg sys copyRules denyRules = run cfg sys copyRules denyRules') /\
  (forall p o d, In (p, o) (outcomes (snd (run cfg sys copyRules denyRules))) ->
     In d denyRules -> minimatch cfg p d = false).
Proof.
  split; [apply applyDenyRules_conj|split].
  - intros denyRules' Hperm.
    assert (Hrule : forall rule, applyDenyRules cfg denyRules (globSync cfg rule)
                                 = applyDenyRules cfg denyRules' (globSync cfg rule)).
    { intros rule. rewrite !applyDenyRules_conj. apply filter_ext. intros file.
      apply forallb_permutation, Hperm. }
    unfold run. generalize (0%nat, init) as acc.
    induction copyRules as [|rule rules IH]; intros [n st]; simpl; [reflexivity|].
    unfold runRule. rewrite Hrule. apply IH.
  - intros p o d Hin Hd.
    assert (Hp : In p (survivors cfg copyRules denyRules)).
    { rewrite <- run_outcome_paths. apply in_map_iff. exists (p, o). split; [reflexivity|exact Hin]. }
    unfold survivors in Hp. apply in_flat_map in Hp as [rule [_ Hp]].
    rewrite applyDenyRules_conj in Hp. apply filter_In in Hp as [_ Hall].
    rewrite forallb_forall in Hall. specialize (Hall d Hd).
    destruct (minimatch cfg p d); [discriminate|reflexivity].
Qed.

(** The state in which the [j]-th recorded outcome was produced. *)
Lemma outcome_at (files : list string) (st0 : state) (j : nat) (p : string) (o : outcome) :
  nth_error (outcomes (states_after cfg sys files st0)) (length (outcomes st0) + j) = Some (p, o) ->
  exists stj,
    stj = states_after cfg sys (firstn j files) st0 /\
    length (outcomes stj) = (length (outcomes st0) + j)%nat /\
    (forall k, (k < length (outcomes stj))%nat ->
       nth_error (outcomes (states_after cfg sys files st0)) k = nth_error (outcomes stj) k) /\
    outcomes (fst (processFile cfg sys stj p)) = outcomes stj ++ [(p, o)].
Proof.
  revert st0 j. induction files as [|f files IH]; intros st0 j Hj.
  - simpl in Hj. assert (Hn : nth_error (outcomes st0) (length (outcomes st0) + j) = None)
      by (apply nth_error_None; lia).
    congruence.
  - simpl in Hj. destruct (processFile_outcome st0 f) as [o1 Ho1].
    set (st1 := fst (processFile cfg sys st0 f)) in *.
    destruct (outcomes_extend files st1) as [L [HL _]].
    destruct j as [|j].
    + exists st0. rewrite HL, Ho1, <- app_assoc in Hj. rewrite Nat.add_0_r in Hj.
      rewrite nth_error_app2 in Hj by lia. rewrite Nat.sub_diag in Hj. simpl in Hj.
      injection Hj as <- <-.
      split; [reflexivity|split; [lia|split; [|exact Ho1]]].
      intros k Hk. change (states_after cfg sys (f :: files) st0) with (states_after cfg sys files st1).
      rewrite HL, Ho1, <- app_assoc. apply nth_error_app1, Hk.
    + assert (Hlen : length (outcomes st1) = S (length (outcomes st0))).
      { rewrite Ho1, length_app. simpl. lia. }
      replace (length (outcomes st0) + S j)%nat with (length (outcomes st1) + j)%nat in Hj by lia.
      destruct (IH st1 j Hj) as [stj [Hstj [Hl [Hpre Hlast]]]].
      exists stj. split; [exact Hstj|split; [lia|split; [exact Hpre|exact Hlast]]].
Qed.

(** Claim C4 (amended): in a real (non-dry) run, the first file actually
    copied under a flat name wins: a later file (of the same or a later
    rule) that passes the size check and has the same flat name gets
    [SkippedDuplicate]; and a file gets [SkippedDuplicate] only when an
    earlier file of the run was copied to the same target path. Files
    skipped for size or whose copy failed claim no name. *)
Theorem first_copy_wins (copyRules denyRules : list string) (j : nat) (p2 : string) (o2 : outcome) :
  dryRun cfg = false ->
  nth_error (outcomes (snd (run cfg sys copyRules denyRules))) j = Some (p2, o2) ->
  (forall i p1 size,
     (i < j)%nat ->
     nth_error (outcomes (snd (run cfg sys copyRules denyRules))) i = Some (p1, Copied) ->
     flattenedFileName (platform_of cfg) p1 = flattenedFileName (platform_of cfg) p2 ->
     statSize sys p2 = Some size -> exceeds (maxFileSize cfg) size = false ->
     o2 = SkippedDuplicate) /\
  (o2 = SkippedDuplicate ->
     exists i p1, (i < j)%nat /\
       nth_error (outcomes (snd (run cfg sys copyRules denyRules))) i = Some (p1, Copied) /\
       target cfg p1 = target cfg p2).
Proof.
  intros _ Hj. rewrite run_state in *.
  set (files := survivors cfg copyRules denyRules) in *.
  destruct (outcome_at files init j p2 o2 Hj) as [stj [Hstj [Hl [Hpre Hlast]]]].
  simpl in Hl.
  assert (Hinv := copied_invariant (firstn j files)). cbv zeta in Hinv. rewrite <- Hstj in Hinv.
  split.
  - intros i p1 size Hij Hi Hflat Hsz Hex.
    rewrite Hpre in Hi by lia.
    assert (Hin : In (target cfg p1) (copiedFiles stj)).
    { rewrite Hinv. apply in_map_iff. exists (p1, Copied). split; [reflexivity|].
      apply filter_In. split; [eapply nth_error_In; exact Hi|reflexivity]. }
    assert (Hdup : existsb (String.eqb (target cfg p2)) (copiedFiles stj) = true).
    { apply existsb_exists. exists (target cfg p1). split; [exact Hin|].
      unfold target. rewrite Hflat. apply String.eqb_refl. }
    unfold processFile in Hlast. rewrite Hsz, Hex in Hlast.
    change (path_join cfg (targetPath cfg) (flattenedFileName (platform_of cfg) p2))
      with (target cfg p2) in Hlast.
    rewrite Hdup in Hlast. simpl in Hlast.
    apply app_inj_tail in Hlast as [_ Hlast]. congruence.
  - intros ->.
    assert (Hdup : existsb (String.eqb (target cfg p2)) (copiedFiles stj) = true).
    { unfold processFile in Hlast.
      destruct (statSize sys p2) as [size|];
        [|apply app_inj_tail in Hlast as [_ Hlast]; discriminate].
      destruct (exceeds (maxFileSize cfg) size);
        [apply app_inj_tail in Hlast as [_ Hlast]; discriminate|].
      change (path_join cfg (targetPath cfg) (flattenedFileName (platform_of cfg) p2))
        with (target cfg p2) in Hlast.
      destruct (existsb (String.eqb (target cfg p2)) (copiedFiles stj)); [reflexivity|].
      destruct (dryRun cfg); [apply app_inj_tail in Hlast as [_ Hlast]; discriminate|].
      destruct (copyFileSync sys p2 (target cfg p2));
        apply app_inj_tail in Hlast as [_ Hlast]; discriminate. }
    apply existsb_exists in Hdup as [x [Hx Heq]]. apply String.eqb_eq in Heq. subst x.
    rewrite Hinv in Hx. apply in_map_iff in Hx as [[p1 o1] [Ht Hx]].
    apply filter_In in Hx as [Hx Hc]. simpl in Ht.
    destruct o1; try discriminate Hc.
    apply In_nth_error in Hx as [i Hi].
    assert (Hij : (i < j)%nat) by (rewrite <- Hl; apply nth_error_Some; congruence).
    exists i, p1. split; [exact Hij|split; [rewrite Hpre by lia; exact Hi|exact Ht]].
Qed.

Lemma processFiles_ext (c1 c2 : config) (files : list string) (st : state) :
  (forall st f, processFile c1 sys st f = processFile c2 sys st f) ->
  processFiles c1 sys files st = processFiles c2 sys files st.
Proof.
  intros H. unfold processFiles. generalize (0%nat, st) as acc.
  induction files as [|f files IH]; intros [n st']; simpl; [reflexivity|].
  rewrite H. apply IH.
Qed.

Lemma processFile_with_maxFileSize (m : option num) (st : state) (f : string) :
  (forall size, exceeds m size = exceeds (maxFileSize cfg) size) ->
  processFile (with_maxFileSize cfg m) sys st f = processFile cfg sys st f.
Proof.
  intros H. unfold processFile. simpl.
  destruct (statSize sys f) as [size|]; [rewrite H|]; reflexivity.
Qed.

Lemma run_with_maxFileSize (m : option num) (copyRules denyRules : list string) :
  (forall size, exceeds m size = exceeds (maxFileSize cfg) size) ->
  run (with_maxFileSize cfg m) sys copyRules denyRules = run cfg sys copyRules denyRules.
Proof.
  intros H. unfold run. generalize (0%nat, init) as acc.
  induction copyRules as [|rule rules IH]; intros [n st]; simpl; [reflexivity|].
  unfold runRule.
  change (applyDenyRules (with_maxFileSize cfg m) denyRules (globSync (with_maxFileSize cfg m) rule))
    with (applyDenyRules cfg denyRules (globSync cfg rule)).
  destruct (applyDenyRules cfg denyRules (globSync cfg rule)) as [|f fs] eqn:E.
  - apply IH.
  - rewrite (processFiles_ext (with_maxFileSize cfg m) cfg).
    + apply IH.
    + intros st' f'. apply processFile_with_maxFileSize, H.
Qed.

(** For a configured limit of [L >= 1] bytes, a file of at most [L] bytes
    (in particular exactly [L]) is processed exactly as without a limit,
    and a file of more than [L] bytes gets [SkippedSize], is added to
    [skippedFiles], and is neither copied nor counted as a copy. *)
Theorem size_limit_strict (st : state) (f : string) (L : Z) :
  maxFileSize cfg = Some (NFin L) -> (0 < L)%Z ->
  (forall size, statSize sys f = Some size -> (size <= L)%Z ->
     processFile cfg sys st f = processFile (with_maxFileSize cfg None) sys st f) /\
  (forall size, statSize sys f = Some size -> (L < size)%Z ->
     let '(st', k) := processFile cfg sys st f in
     outcomes st' = outcomes st ++ [(f, SkippedSize)] /\
     skippedFiles st' = skippedFiles st ++ [f] /\
     copiedFiles st' = copiedFiles st /\ writes st' = writes st /\
     totalBytes st' = totalBytes st /\ k = 0%nat).
Proof.
  intros Hm HL. split.
  - intros size Hsz Hle. unfold processFile. simpl. rewrite Hsz, Hm. unfold exceeds. simpl.
    destruct (Z.eqb_spec L 0); [lia|]. destruct (Z.ltb_spec L size); [lia|]. reflexivity.
  - intros size Hsz Hlt. unfold processFile. rewrite Hsz, Hm. unfold exceeds. simpl.
    destruct (Z.eqb_spec L 0); [lia|]. destruct (Z.ltb_spec L size); [|lia]. simpl.
    repeat split; reflexivity.
Qed.

(** Claim C10: a limit of exactly [0] bytes (what [parseFileSize("0B")]
    returns) is falsy, so the run is the same as with no limit at all and
    no file gets [SkippedSize], whatever its size. *)
Theorem zero_limit_disables_size_check (copyRules denyRules : list string) :
  maxFileSize cfg = Some (NFin 0) ->
  SizeArg.parseFileSize "0B" = Some (NFin 0) /\
  run cfg sys copyRules denyRules = run (with_maxFileSize cfg None) sys copyRules denyRules /\
  (forall p, ~ In (p, SkippedSize) (outcomes (snd (run cfg sys copyRules denyRules)))).
Proof.
  intros Hm. split; [reflexivity|split].
  - symmetry. apply run_with_maxFileSize. intros size. rewrite Hm. reflexivity.
  - rewrite run_state.
    apply (states_after_ind (fun st => forall p, ~ In (p, SkippedSize) (outcomes st))).
    + intros st f Hst p. processFile_cases f;
        try (rewrite Hm in Hex; discriminate Hex);
        rewrite in_snoc; intros [Hin|Hin]; try (now apply (Hst p)); discriminate Hin.
    + intros p [].
Qed.

End Run.

End EngineFacts.

(* ------------------------------------------------------------------ *)
(** ** Concrete runs *)

Module EngineChecks.
Import Transform Engine Scenarios EngineFacts.
Local Open Scope list_scope.

(** Claim C3 (code bug): with two inclusion rules that both find [a.ts],
    the real run copies it once and skips the second as a duplicate, but
    the dry run reports it twice as "would copy": the dry-run branch never
    records the target path in [copiedFiles], so duplicates go undetected
    and the counts and byte totals differ. *)
Theorem dry_run_misses_duplicates :
  let sys := disk [("a.ts", 10%Z)] in
  let real := run (cli false None) sys ["a.ts"; "a.ts"] [] in
  let dry := run (cli true None) sys ["a.ts"; "a.ts"] [] in
  fst real = 1%nat /\
  outcomes (snd real) = [("a.ts", Copied); ("a.ts", SkippedDuplicate)] /\
  skippedFiles (snd real) = ["a.ts"] /\ totalBytes (snd real) = 10%Z /\
  fst dry = 2%nat /\
  outcomes (snd dry) = [("a.ts", WouldCopy); ("a.ts", WouldCopy)] /\
  skippedFiles (snd dry) = [] /\ totalBytes (snd dry) = 20%Z.
Proof. repeat split; reflexivity. Qed.

(** Claim C4 (counterexample): ["a_/b"] and ["a/_b"] have the same flat
    name; with a 1024-byte limit the first one (2000 bytes) is skipped for
    its size and the later one is copied, not skipped as a duplicate. *)
Lemma first_in_order_not_always_copied :
  let sys := disk [("a_/b", 2000%Z); ("a/_b", 10%Z)] in
  flattenedFileName Posix "a_/b" = flattenedFileName Posix "a/_b" /\
  outcomes (snd (run (cli false (Some (NFin 1024))) sys ["a_/b"; "a/_b"] []))
    = [("a_/b", SkippedSize); ("a/_b", Copied)].
Proof. split; reflexivity. Qed.

Lemma first_copy_wins_witness :
  dryRun (cli false None) = false /\
  nth_error (outcomes (snd (run (cli false None) (disk [("a.ts", 10%Z)]) ["a.ts"; "a.ts"] []))) 1
    = Some ("a.ts", SkippedDuplicate) /\
  exists i p1, (i < 1)%nat /\
    nth_error (outcomes (snd (run (cli false None) (disk [("a.ts", 10%Z)]) ["a.ts"; "a.ts"] []))) i
      = Some (p1, Copied) /\
    target (cli false None) p1 = target (cli false None) "a.ts".
Proof.
  split; [reflexivity|split; [reflexivity|]].
  apply (first_copy_wins (cli false None) (disk [("a.ts", 10%Z)]) ["a.ts"; "a.ts"] [] 1
           "a.ts" SkippedDuplicate); reflexivity.
Defined.

(** Claim C6 (code bug): [--max-size 0B] configures a limit of [0] bytes,
    but the check [maxFileSize && fileSize > maxFileSize] (line 454) treats
    the number [0] as falsy: a 1-byte file exceeds the limit, yet it is
    copied, counted and added to [totalBytes], and is not in
    [skippedFiles]. *)
Theorem zero_limit_does_not_skip_larger :
  let cfg := cli false (SizeArg.parseFileSize "0B") in
  let '(st, k) := processFile cfg (disk [("big.bin", 1%Z)]) init "big.bin" in
  SizeArg.parseFileSize "0B" = Some (NFin 0) /\
  outcomes st = [("big.bin", Copied)] /\ writes st = [("big.bin", target cfg "big.bin")] /\
  skippedFiles st = [] /\ totalBytes st = 1%Z /\ k = 1%nat.
Proof. simpl. repeat split; reflexivity. Qed.

Lemma size_limit_strict_witness :
  processFile (cli false (Some (NFin 1024))) (disk [("f", 1024%Z)]) init "f"
    = processFile (with_maxFileSize (cli false (Some (NFin 1024))) None) (disk [("f", 1024%Z)]) init "f" /\
  outcomes (fst (processFile (cli false (Some (NFin 1024))) (disk [("g", 1025%Z)]) init "g"))
    = [("g", SkippedSize)].
Proof.
  split.
  - apply (proj1 (size_limit_strict (cli false (Some (NFin 1024))) (disk [("f", 1024%Z)])
                    init "f" 1024 eq_refl ltac:(lia)) 1024%Z); [reflexivity|lia].
  - pose proof (proj2 (size_limit_strict (cli false (Some (NFin 1024))) (disk [("g", 1025%Z)])
                    init "g" 1024 eq_refl ltac:(lia)) 1025%Z eq_refl ltac:(lia)) as H.
    destruct (processFile _ _ init "g") as [st' k]. exact (proj1 H).
Defined.

Lemma flattenedFileName_no_separator_witness :
  (Win32 = Win32 -> Js.has_char "/" ("src" ++ String "092" "a.ts")%string = false) /\
  flattenedFileName Win32 ("src" ++ String "092" "a.ts")%string
    = flattenedFileName_spec Win32 ("src" ++ String "092" "a.ts")%string /\
  Js.has_char "/" (flattenedFileName Win32 ("src" ++ String "092" "a.ts")%string) = false /\
  Js.has_char (pathSeparator Win32) (flattenedFileName Win32 ("src" ++ String "092" "a.ts")%string) = false.
Proof.
  split; [intros _; reflexivity|].
  apply TransformFacts.flattenedFileName_no_separator. intros _. reflexivity.
Defined.

Lemma zero_limit_disables_size_check_witness :
  SizeArg.parseFileSize "0B" = Some (NFin 0) /\
  ~ In ("big.bin", SkippedSize)
      (outcomes (snd (run (cli false (Some (NFin 0))) (disk [("big.bin", 1%Z)]) ["big.bin"] []))).
Proof.
  destruct (zero_limit_disables_size_check (cli false (Some (NFin 0))) (disk [("big.bin", 1%Z)])
              ["big.bin"] [] eq_refl) as [H1 [_ H3]].
  split; [exact H1|apply H3].
Defined.

End EngineChecks.

(* ------------------------------------------------------------------ *)
(** ** Run statistics *)

Module StatsFacts.
Import Transform Engine Stats EngineFacts.
Local Open Scope list_scope.

Section Run.
Variable cfg : config.
Variable sys : fs.

Ltac pf_cases f :=
  unfold processFile;
  let Hsz := fresh "Hsz" in let Hex := fresh "Hex" in let Hdup := fresh "Hdup" in
  let Hdry := fresh "Hdry" in let Hcp := fresh "Hcp" in
  destruct (statSize sys f) as [?size|] eqn:Hsz;
  [ destruct (exceeds (maxFileSize cfg) _) eqn:Hex;
    [ | destruct (existsb _ _) eqn:Hdup;
        [ | destruct (dryRun cfg) eqn:Hdry;
            [ | destruct (copyFileSync _ _ _) eqn:Hcp ] ] ]
  | ]; unfold record_error, record_skip, record_would_copy, record_copy; simpl.

Lemma sum_sizes_app (l1 l2 : list (string * outcome)) :
  sum_sizes sys (l1 ++ l2) = (sum_sizes sys l1 + sum_sizes sys l2)%Z.
Proof. induction l1 as [|e l1 IH]; simpl; [reflexivity|]. rewrite IH. lia. Qed.

Lemma NoDup_snoc {A} (l : list A) (x : A) : NoDup l -> ~ In x l -> NoDup (l ++ [x]).
Proof.
  intros Hl Hx. induction Hl as [|y l Hy Hl IH]; simpl.
  - constructor; [intros []|constructor].
  - constructor.
    + rewrite in_app_iff. intros [H|[H|[]]]; [contradiction|]. subst. apply Hx. left. reflexivity.
    + apply IH. intros H. apply Hx. right. exact H.
Qed.

Lemma processFile_count (st : state) (f : string) :
  let '(st', k) := processFile cfg sys st f in
  (k + length (filter is_emitted (outcomes st)))%nat = length (filter is_emitted (outcomes st')).
Proof.
  pf_cases f; rewrite filter_app, length_app; simpl; lia.
Qed.

Lemma fold_count (files : list string) (n : nat) (st : state) :
  let '(n', st') := fold_left (fun '(n, st) f =>
      let '(st', k) := processFile cfg sys st f in (n + k, st')%nat) files (n, st) in
  (n' + length (filter is_emitted (outcomes st)))%nat = (n + length (filter is_emitted (outcomes st')))%nat.
Proof.
  revert n st. induction files as [|f files IH]; intros n st; simpl; [lia|].
  pose proof (processFile_count st f) as Hf.
  destruct (processFile cfg sys st f) as [st1 k].
  specialize (IH (n + k)%nat st1).
  destruct (fold_left _ files (n + k, st1))%nat as [n' st']. lia.
Qed.

Lemma sum_sizes_nonneg (l : list (string * outcome)) :
  (forall e, In e l -> (0 <= size_of sys (fst e))%Z) -> (0 <= sum_sizes sys l)%Z.
Proof.
  induction l as [|e l IH]; simpl; intros H; [lia|].
  pose proof (H e (or_introl eq_refl)). specialize (IH (fun e' He' => H e' (or_intror He'))).
  lia.
Qed.

Lemma js_total_exact_from (l : list (string * outcome)) (a : Z) :
  (0 <= a)%Z -> (forall e, In e l -> (0 <= size_of sys (fst e))%Z) ->
  (a + sum_sizes sys l <= 2 ^ 53)%Z ->
  fold_left (fun acc e => js_add acc (size_of sys (fst e))) l (NFin a) = NFin (a + sum_sizes sys l).
Proof.
  revert a. induction l as [|e l IH]; intros a Ha Hpos Hb; cbn [fold_left].
  - f_equal. change (sum_sizes sys []) with 0%Z. lia.
  - change (sum_sizes sys (e :: l)) with (size_of sys (fst e) + sum_sizes sys l)%Z in *.
    assert (He : (0 <= size_of sys (fst e))%Z) by (apply Hpos; left; reflexivity).
    assert (Hl : forall e', In e' l -> (0 <= size_of sys (fst e'))%Z)
      by (intros e' He'; apply Hpos; right; exact He').
    pose proof (sum_sizes_nonneg l Hl) as Hs.
    unfold js_add at 2. rewrite SizeFacts.round_binary64_int by lia.
    rewrite IH; [f_equal; lia|lia|exact Hl|lia].
Qed.

(** [totalFilesCopied], the sum of the values returned by [runRule], is the
    number of files with outcome [Copied] or [WouldCopy]. *)
Theorem run_count_is_emitted (copyRules denyRules : list string) :
  fst (run cfg sys copyRules denyRules)
  = length (filter is_emitted (outcomes (snd (run cfg sys copyRules denyRules)))).
Proof.
  unfold run.
  assert (H : forall acc st,
    let '(n', st') := fold_left (fun '(acc, st) rule =>
        let '(k, st') := runRule cfg sys st rule denyRules in (acc + k, st')%nat)
        copyRules (acc, st) in
    (n' + length (filter is_emitted (outcomes st)))%nat
    = (acc + length (filter is_emitted (outcomes st')))%nat).
  { induction copyRules as [|rule rules IH]; intros acc st; simpl; [lia|].
    assert (Hr : let '(k, st1) := runRule cfg sys st rule denyRules in
                 (k + length (filter is_emitted (outcomes st)))%nat
                 = length (filter is_emitted (outcomes st1))).
    { unfold runRule. destruct (applyDenyRules cfg denyRules (globSync cfg rule)) as [|f fs].
      - reflexivity.
      - unfold processFiles. pose proof (fold_count (f :: fs) 0 st) as Hc.
        destruct (fold_left _ (f :: fs) (0%nat, st)) as [n' st']. lia. }
    destruct (runRule cfg sys st rule denyRules) as [k st1].
    specialize (IH (acc + k)%nat st1).
    destruct (fold_left _ rules ((acc + k)%nat, st1)) as [n' st']. lia. }
  specialize (H 0%nat init).
  destruct (fold_left _ copyRules (0%nat, init)) as [n' st']. simpl in *. lia.
Qed.

Lemma stats_invariant_step (st : state) (f : string) :
  let I st :=
    skippedFiles st = map fst (filter is_skipped (outcomes st)) /\
    totalBytes st = sum_sizes sys (filter is_emitted (outcomes st)) /\
    map snd (writes st) = copiedFiles st /\
    writes st = map (fun e => (fst e, target cfg (fst e))) (filter is_copied (outcomes st)) /\
    NoDup (copiedFiles st) in
  I st -> I (fst (processFile cfg sys st f)).
Proof.
  intros I [H1 [H2 [H3 [H4 H5]]]]. unfold I.
  pf_cases f; rewrite ?filter_app, ?map_app, ?sum_sizes_app, <- ?H1, <- ?H2, <- ?H3, <- ?H4;
    simpl; rewrite ?app_nil_r; unfold size_of; rewrite ?Hsz.
  all: repeat split; try reflexivity; try lia; rewrite ?H3; try assumption.
  apply NoDup_snoc; [exact H5|].
  intros Hin. apply Bool.diff_false_true. rewrite <- Hdup. apply existsb_exists.
  eexists. split; [exact Hin|apply String.eqb_refl].
Qed.

Lemma run_stats_invariant (copyRules denyRules : list string) :
  let st := snd (run cfg sys copyRules denyRules) in
  skippedFiles st = map fst (filter is_skipped (outcomes st)) /\
  totalBytes st = sum_sizes sys (filter is_emitted (outcomes st)) /\
  map snd (writes st) = copiedFiles st /\
  writes st = map (fun e => (fst e, target cfg (fst e))) (filter is_copied (outcomes st)) /\
  NoDup (copiedFiles st).
Proof.
  cbv zeta. rewrite run_state.
  apply (states_after_ind cfg sys _ stats_invariant_step).
  simpl. repeat split; constructor.
Qed.

(** The statistics kept by [runRule] agree with the outcomes: [skippedFiles]
    lists the files skipped for size or as duplicates, in order; when the
    sizes of the files copied (or that would be) add up to at most [2^53]
    bytes, the double-precision [totalBytes] the script accumulates is
    exactly their total (past [2^53] its additions may round); every copy
    performed goes from a copied file to its target path; and no two
    copies of a run share a target path, so a run never overwrites a file
    it has itself written. *)
Theorem run_statistics_consistent (copyRules denyRules : list string) :
  let st := snd (run cfg sys copyRules denyRules) in
  skippedFiles st = map fst (filter is_skipped (outcomes st)) /\
  ((forall e, In e (filter is_emitted (outcomes st)) -> (0 <= size_of sys (fst e))%Z) ->
   (sum_sizes sys (filter is_emitted (outcomes st)) <= 2 ^ 53)%Z ->
   js_total sys (filter is_emitted (outcomes st)) = NFin (sum_sizes sys (filter is_emitted (outcomes st))) /\
   totalBytes st = sum_sizes sys (filter is_emitted (outcomes st))) /\
  writes st = map (fun e => (fst e, target cfg (fst e))) (filter is_copied (outcomes st)) /\
  NoDup (map snd (writes st)).
Proof.
  pose proof (run_stats_invariant copyRules denyRules) as [H1 [H2 [H3 [H4 H5]]]].
  split; [exact H1|split; [|split; [exact H4|rewrite H3; exact H5]]].
  intros Hpos Hb. split; [|exact H2].
  unfold js_total. rewrite js_total_exact_from; [f_equal|lia|exact Hpos|lia].
Qed.


Lemma mode_invariant_step (st : state) (f : string) :
  let I st := forall p o, In (p, o) (outcomes st) ->
    (o = Copied -> dryRun cfg = false) /\ (o = WouldCopy -> dryRun cfg = true) in
  I st -> I (fst (processFile cfg sys st f)).
Proof.
  intros I H. unfold I.
  pf_cases f; intros p o Hin; apply in_snoc in Hin as [Hin|Hin];
    try (now apply (H p o)); inversion Hin; subst; split; intros Ho; congruence.
Qed.

(** A dry run copies nothing: no [copyFileSync] call is made and no file
    gets the outcome [Copied]; a real run never reports [WouldCopy]. *)
Theorem run_mode_outcomes (copyRules denyRules : list string) :
  let st := snd (run cfg sys copyRules denyRules) in
  (dryRun cfg = true -> writes st = [] /\ forall p, ~ In (p, Copied) (outcomes st)) /\
  (dryRun cfg = false -> forall p, ~ In (p, WouldCopy) (outcomes st)).
Proof.
  cbv zeta. rewrite run_state.
  pose proof (states_after_ind cfg sys _ mode_invariant_step
    (survivors cfg copyRules denyRules) init) as Hm.
  assert (Hw : writes (states_after cfg sys (survivors cfg copyRules denyRules) init)
               = map (fun e => (fst e, target cfg (fst e)))
                   (filter is_copied (outcomes (states_after cfg sys (survivors cfg copyRules denyRules) init)))).
  { pose proof (run_stats_invariant copyRules denyRules) as Hs.
    cbv zeta in Hs. rewrite run_state in Hs. apply Hs. }
  assert (Hm' : forall p o, In (p, o)
      (outcomes (states_after cfg sys (survivors cfg copyRules denyRules) init)) ->
      (o = Copied -> dryRun cfg = false) /\ (o = WouldCopy -> dryRun cfg = true))
    by (apply Hm; intros ? ? []).
  clear Hm.
  split.
  - intros Hdry. assert (Hno : forall p, ~ In (p, Copied)
        (outcomes (states_after cfg sys (survivors cfg copyRules denyRules) init))).
    { intros p Hin. destruct (Hm' p Copied Hin) as [H _].
      rewrite (H eq_refl) in Hdry. discriminate. }
    split; [|exact Hno].
    rewrite Hw. destruct (filter is_copied _) as [|[p o] l] eqn:E; [reflexivity|].
    exfalso. assert (Hin : In (p, o) (filter is_copied
        (outcomes (states_after cfg sys (survivors cfg copyRules denyRules) init)))) by (rewrite E; left; reflexivity).
    apply filter_In in Hin as [Hin Ho]. destruct o; try discriminate. exact (Hno p Hin).
  - intros Hdry p Hin. destruct (Hm' p WouldCopy Hin) as [_ H].
    rewrite (H eq_refl) in Hdry. discriminate.
Qed.

Lemma outcome_paths_extra_exclusions (copyRules denyRules extra : list string) :
  map fst (outcomes (snd (run cfg sys copyRules (denyRules ++ extra))))
  = filter (fun file => forallb (fun d => negb (minimatch cfg file d)) extra)
      (map fst (outcomes (snd (run cfg sys copyRules denyRules)))).
Proof.
  rewrite !run_outcome_paths. unfold survivors.
  induction copyRules as [|rule rules IH]; simpl; [reflexivity|].
  rewrite filter_app, IH. f_equal.
  rewrite !applyDenyRules_conj, filter_filter_and. apply filter_ext.
  intros file. rewrite forallb_app. reflexivity.
Qed.

(** Appending exclusion patterns (as [--gitignore] does with the
    [.gitignore] patterns, lines 361-369) removes from the processed paths
    exactly those matching one of the new patterns, and keeps the order of
    the others. *)
Theorem run_extra_exclusions (copyRules denyRules extra : list string) :
  map fst (outcomes (snd (run cfg sys copyRules (denyRules ++ extra))))
  = filter (fun file => forallb (fun d => negb (minimatch cfg file d)) extra)
      (map fst (outcomes (snd (run cfg sys copyRules denyRules)))).
Proof. apply outcome_paths_extra_exclusions. Qed.

Lemma dry_run_no_writes (copyRules denyRules : list string) :
  dryRun cfg = true -> writes (snd (run cfg sys copyRules denyRules)) = [].
Proof.
  intros Hdry. rewrite run_state.
  apply (states_after_ind cfg sys (fun st => writes st = [])); [|reflexivity].
  intros st f Hw. pf_cases f; rewrite ?Hw; congruence.
Qed.


End Run.

End StatsFacts.

(* ------------------------------------------------------------------ *)
(** ** Reading the configuration *)

Module ConfigFacts.
Import Transform Config TransformFacts.

Lemma strip_comment_no_hash (b : bool) (s : string) :
  Js.has_char "#"%char (strip_comment b s) = false.
Proof.
  revert b. induction s as [|c s IH]; intros b; simpl; [reflexivity|].
  destruct (is_line_terminator c) eqn:Hlt.
  - simpl. rewrite IH, orb_false_r.
    destruct (Ascii.eqb c "#"%char) eqn:Hc; [|reflexivity].
    apply Ascii.eqb_eq in Hc. subst. discriminate.
  - destruct (b || Ascii.eqb c "#"%char) eqn:Hb; [apply IH|].
    simpl. rewrite IH, orb_false_r.
    apply orb_false_elim in Hb as [_ Hc]. exact Hc.
Qed.

Lemma strip_comment_sub (c : ascii) (b : bool) (s : string) :
  Js.has_char c (strip_comment b s) = true -> Js.has_char c s = true.
Proof.
  revert b. induction s as [|x s IH]; intros b; simpl; [discriminate|].
  destruct (is_line_terminator x); [|destruct (b || Ascii.eqb x "#"%char)]; simpl;
    intros H; try apply orb_true_iff in H as [H|H];
    try (rewrite H; reflexivity); rewrite (IH _ H), orb_true_r; reflexivity.
Qed.

Lemma trim_start_sub (c : ascii) (s : string) :
  Js.has_char c (trim_start s) = true -> Js.has_char c s = true.
Proof.
  induction s as [|x s IH]; simpl; [discriminate|].
  destruct (is_space x); [intros H; rewrite (IH H), orb_true_r; reflexivity|exact (fun H => H)].
Qed.

Lemma trim_end_sub (c : ascii) (s : string) :
  Js.has_char c (trim_end s) = true -> Js.has_char c s = true.
Proof.
  induction s as [|x s IH]; simpl; [discriminate|].
  destruct (trim_end s) as [|y r] eqn:E.
  - destruct (is_space x); simpl; [discriminate|].
    rewrite orb_false_r. intros H. rewrite H. reflexivity.
  - simpl. intros H. apply orb_true_iff in H as [H|H]; [rewrite H; reflexivity|].
    rewrite (IH H), orb_true_r. reflexivity.
Qed.

Lemma trim_sub (c : ascii) (s : string) :
  Js.has_char c (trim s) = true -> Js.has_char c s = true.
Proof. intros H. apply trim_start_sub, trim_end_sub, H. Qed.

Lemma trim_end_cons (c : ascii) (s : string) :
  trim_end (String c s)
  = match trim_end s with
    | EmptyString => if is_space c then EmptyString else String c EmptyString
    | String _ _ => String c (trim_end s)
    end.
Proof. reflexivity. Qed.

Lemma trim_end_idem (s : string) : trim_end (trim_end s) = trim_end s.
Proof.
  induction s as [|c s IH]; [reflexivity|].
  rewrite trim_end_cons. destruct (trim_end s) as [|y r] eqn:E.
  - destruct (is_space c) eqn:Hc; [reflexivity|]. rewrite trim_end_cons. simpl. rewrite Hc. reflexivity.
  - rewrite trim_end_cons, IH. reflexivity.
Qed.

Lemma trim_end_keeps_head (c : ascii) (s : string) :
  is_space c = false -> trim_end (String c s) = String c (trim_end s).
Proof.
  intros Hc. simpl. destruct (trim_end s); [rewrite Hc|]; reflexivity.
Qed.

Lemma trim_start_keeps (c : ascii) (s : string) :
  is_space c = false -> trim_start (String c s) = String c s.
Proof. intros Hc. simpl. rewrite Hc. reflexivity. Qed.

Lemma trim_idem (s : string) : trim (trim s) = trim s.
Proof.
  unfold trim. induction s as [|c s IH]; [reflexivity|].
  cbn [trim_start]. destruct (is_space c) eqn:Hc; [exact IH|].
  rewrite trim_end_keeps_head by exact Hc. cbn [trim_start]. rewrite Hc.
  rewrite trim_end_keeps_head, trim_end_idem by exact Hc. reflexivity.
Qed.

Lemma nonempty_true (s : string) : nonempty s = true -> s <> EmptyString.
Proof. destruct s; [discriminate|intros _; discriminate]. Qed.

(** Every rule read from [.flatten] is non-empty and trimmed, and contains
    neither a [#] (a [#] anywhere starts a comment, so a pattern cannot
    contain one) nor a line feed. *)
Theorem flattenList_wellformed (configText : string) :
  Forall (fun rule => rule <> EmptyString /\ Js.has_char "#"%char rule = false /\
                      Js.has_char "010"%char rule = false /\ trim rule = rule)
    (parseFlattenList configText).
Proof.
  unfold parseFlattenList. rewrite Forall_forall. intros rule Hr.
  apply filter_In in Hr as [Hr Hne].
  rewrite map_map in Hr. apply in_map_iff in Hr as [line [<- Hline]].
  split; [now apply nonempty_true|].
  split; [destruct (Js.has_char "#"%char _) eqn:H; [|reflexivity];
          apply trim_sub in H; rewrite strip_comment_no_hash in H; discriminate|].
  split; [|apply trim_idem].
  destruct (Js.has_char "010"%char _) eqn:H; [|reflexivity].
  apply trim_sub, strip_comment_sub in H.
  pose proof (split_pieces_lack_sep "010"%char configText) as Hs.
  rewrite Forall_forall in Hs. rewrite (Hs line Hline) in H. discriminate.
Qed.

Lemma filter_partition_perm {A} (f : A -> bool) (l : list A) :
  Permutation l (filter (fun x => negb (f x)) l ++ filter f l).
Proof.
  induction l as [|x l IH]; simpl; [constructor|].
  destruct (f x); simpl.
  - apply Permutation_cons_app, IH.
  - constructor. exact IH.
Qed.

(** The rules split into inclusion and exclusion rules with nothing lost
    or added: the inclusion rules and the exclusion rules with their [!]
    put back are a permutation of the rules.  No inclusion rule starts
    with [!]; an exclusion rule contains no [#] and ends in no white
    space, but it may be empty (a line ["!"]) or start with white space
    (a line ["! x"]). *)
Theorem rules_partition (configText : string) :
  let flattenList := parseFlattenList configText in
  Permutation flattenList
    (copyRules flattenList ++ map (fun d => String "!"%char d) (denyRules flattenList))%list /\
  Forall (fun rule => starts_with "!"%char rule = false) (copyRules flattenList) /\
  Forall (fun d => Js.has_char "#"%char d = false /\ trim_end d = d) (denyRules flattenList).
Proof.
  cbv zeta. pose proof (flattenList_wellformed configText) as Hw.
  set (l := parseFlattenList configText) in *.
  assert (Hbang : map (fun d => String "!"%char d) (denyRules l) = filter (starts_with "!"%char) l).
  { unfold denyRules. rewrite map_map. clear Hw.
    assert (Hall : Forall (fun r => starts_with "!"%char r = true) (filter (starts_with "!"%char) l)).
    { rewrite Forall_forall. intros r Hr. apply filter_In in Hr as [_ Hr]. exact Hr. }
    induction Hall as [|r rs Hr _ IH]; [reflexivity|].
    simpl. rewrite IH. destruct r as [|c r]; [discriminate|].
    simpl in Hr. apply Ascii.eqb_eq in Hr. subst c. reflexivity. }
  split; [|split].
  - rewrite Hbang. apply filter_partition_perm.
  - unfold copyRules. rewrite Forall_forall. intros r Hr. apply filter_In in Hr as [_ Hr].
    destruct (starts_with _ r); [discriminate|reflexivity].
  - unfold denyRules. rewrite Forall_forall. intros d Hd.
    apply in_map_iff in Hd as [r [<- Hr]]. apply filter_In in Hr as [Hr Hs].
    rewrite Forall_forall in Hw. destruct (Hw r Hr) as [_ [Hh [_ Ht]]].
    destruct r as [|c r]; [discriminate|]. simpl in Hs. apply Ascii.eqb_eq in Hs. subst c.
    simpl in Hh |- *. split; [exact Hh|].
    unfold trim in Ht. rewrite trim_start_keeps, trim_end_keeps_head in Ht by reflexivity.
    injection Ht as Ht. exact Ht.
Qed.

Lemma split_not_nil (c : ascii) (s : string) : Js.split c s <> [].
Proof.
  destruct s as [|x s]; simpl; [discriminate|].
  destruct (Ascii.eqb x c); [discriminate|]. destruct (Js.split c s); discriminate.
Qed.

Lemma split_to_crlf (t : string) :
  Js.split "010"%char (to_crlf t) = add_cr (Js.split "010"%char t).
Proof.
  induction t as [|x t IH]; [reflexivity|].
  cbn [to_crlf]. destruct (Ascii.eqb x "010"%char) eqn:Hx.
  - apply Ascii.eqb_eq in Hx. subst x.
    cbn [Js.split]. rewrite IH. simpl.
    destruct (Js.split "010"%char t) as [|h r] eqn:E; [exfalso; exact (split_not_nil _ _ E)|].
    reflexivity.
  - cbn [Js.split]. rewrite Hx, IH.
    destruct (Js.split "010"%char t) as [|h r] eqn:E; [exfalso; exact (split_not_nil _ _ E)|].
    destruct r as [|h2 r]; reflexivity.
Qed.

Lemma strip_comment_snoc (b : bool) (x : string) (c : ascii) :
  is_line_terminator c = true ->
  strip_comment b (x ++ String c EmptyString) = strip_comment b x ++ String c EmptyString.
Proof.
  intros Hc. revert b. induction x as [|y x IH]; intros b; simpl.
  - rewrite Hc. reflexivity.
  - destruct (is_line_terminator y); [rewrite IH; reflexivity|].
    destruct (b || Ascii.eqb y "#"%char); [apply IH|rewrite IH; reflexivity].
Qed.

Lemma trim_end_snoc_space (y : string) (c : ascii) :
  is_space c = true -> trim_end (y ++ String c EmptyString) = trim_end y.
Proof.
  intros Hc. induction y as [|x y IH]; simpl.
  - rewrite Hc. reflexivity.
  - rewrite IH. reflexivity.
Qed.

Lemma trim_snoc_space (y : string) (c : ascii) :
  is_space c = true -> trim (y ++ String c EmptyString) = trim y.
Proof.
  intros Hc. unfold trim. induction y as [|x y IH].
  - simpl. rewrite Hc. reflexivity.
  - cbn [trim_start append]. destruct (is_space x) eqn:Hx; [exact IH|].
    apply trim_end_snoc_space with (y := String x y), Hc.
Qed.

Lemma map_add_cr (f : string -> string) (l : list string) :
  (forall x, f (x ++ String "013"%char EmptyString) = f x) ->
  map f (add_cr l) = map f l.
Proof.
  intros Hf. induction l as [|x l IH]; [reflexivity|].
  destruct l as [|y l]; [reflexivity|].
  change (add_cr (x :: y :: l)) with ((x ++ String "013"%char EmptyString) :: add_cr (y :: l)).
  cbn [map]. rewrite Hf. f_equal. exact IH.
Qed.

(** Saving [.flatten] or [.gitignore] with Windows line endings (CR LF)
    changes nothing: the carriage return left at the end of each line by
    [split("\n")] survives the comment removal and is trimmed away. *)
Theorem crlf_line_endings_ignored (text : string) :
  parseFlattenList (to_crlf text) = parseFlattenList text /\
  loadGitignorePatterns (Some (to_crlf text)) = loadGitignorePatterns (Some text).
Proof.
  unfold parseFlattenList, loadGitignorePatterns. rewrite split_to_crlf. split.
  - rewrite map_map, map_map, map_add_cr; [reflexivity|].
    intros x. rewrite strip_comment_snoc by reflexivity. apply trim_snoc_space. reflexivity.
  - rewrite map_add_cr; [reflexivity|]. intros x. apply trim_snoc_space. reflexivity.
Qed.

(** The patterns taken from [.gitignore] are non-empty, trimmed, and do
    not start with [#]; unlike the rules of [.flatten], they keep a [#]
    that is not their first character. *)
Theorem gitignore_patterns_wellformed (gitignore : option string) :
  Forall (fun pat => pat <> EmptyString /\ starts_with "#"%char pat = false /\ trim pat = pat)
    (loadGitignorePatterns gitignore).
Proof.
  destruct gitignore as [content|]; [|constructor].
  simpl. rewrite Forall_forall. intros pat Hp.
  apply filter_In in Hp as [Hp Hk]. apply andb_true_iff in Hk as [Hne Hh].
  apply in_map_iff in Hp as [line [<- _]].
  split; [now apply nonempty_true|split; [now destruct (starts_with _ _)|apply trim_idem]].
Qed.

End ConfigFacts.

(* ------------------------------------------------------------------ *)
(** ** Formatting byte counts *)

Module FormatFacts.
Import Format.
Local Open Scope Z_scope.

Lemma formatBytes_scale (b : Z) :
  formatBytes (NFin b)
  = option_map (fun s => (s ++ nth (unit_index b) units EmptyString)%string)
      (toFixed b (1024 ^ Z.of_nat (unit_index b)) (if (0 <? unit_index b)%nat then 1 else 0)%nat).
Proof.
  unfold formatBytes, unit_index. cbn [scale length units Nat.sub].
  change (1024 ^ 2) with 1048576. change (1024 ^ 3) with 1073741824.
  change (1024 * 1) with 1024. change (1024 * 1024) with 1048576.
  change (1024 * 1048576) with 1073741824.
  repeat match goal with
         | |- context [(?x <=? ?y)] => destruct (Z.leb_spec x y)
         | |- context [(?x <? ?y)] => destruct (Z.ltb_spec x y)
         end; try lia; reflexivity.
Qed.

(** The loop of [formatBytes] picks the unit by thresholds: bytes below
    1024, then KB below 1024^2, MB below 1024^3, and GB for everything
    above (there is no larger unit); the figure is [bytes / 1024^k] with no
    decimal for bytes and one decimal otherwise. *)
Theorem formatBytes_unit_thresholds (b : Z) :
  formatBytes (NFin b)
  = option_map (fun s => (s ++ nth (unit_index b) units EmptyString)%string)
      (toFixed b (1024 ^ Z.of_nat (unit_index b)) (if (0 <? unit_index b)%nat then 1 else 0)%nat).
Proof. apply formatBytes_scale. Qed.

(** Rounding to one decimal happens after the unit is chosen: a count
    within 1/20 of a unit below 1024^2 (or 1024^3) bytes is shown as
    ["1024.0KB"] (or ["1024.0MB"]), not as the next unit. *)
Theorem formatBytes_rounds_up_to_1024 (k : nat) (b : Z) :
  (k = 1 \/ k = 2)%nat ->
  20479 * 1024 ^ Z.of_nat k <= 20 * b < 20480 * 1024 ^ Z.of_nat k ->
  formatBytes (NFin b) = Some ("1024.0" ++ nth k units EmptyString)%string.
Proof.
  intros Hk Hb. rewrite formatBytes_scale.
  assert (Hpos : 0 <= b) by (destruct Hk as [-> | ->];
    [change (1024 ^ Z.of_nat 1) with 1024 in Hb | change (1024 ^ Z.of_nat 2) with 1048576 in Hb]; lia).
  assert (Hu : unit_index b = k).
  { unfold unit_index. change (1024 ^ 2) with 1048576. change (1024 ^ 3) with 1073741824.
    destruct Hk as [-> | ->];
      [change (1024 ^ Z.of_nat 1) with 1024 in Hb | change (1024 ^ Z.of_nat 2) with 1048576 in Hb];
      repeat match goal with |- context [b <? ?y] => destruct (Z.ltb_spec b y) end;
      (reflexivity || lia). }
  rewrite Hu. clear Hu.
  assert (Hf : (if (0 <? k)%nat then 1 else 0)%nat = 1%nat) by (destruct Hk as [-> | ->]; reflexivity).
  rewrite Hf. clear Hf. unfold toFixed.
  replace (b <? 0) with false by (symmetry; apply Z.ltb_ge; lia).
  rewrite Z.abs_eq by lia.
  change (10 ^ Z.of_nat 1) with 10.
  destruct Hk as [-> | ->];
    [change (1024 ^ Z.of_nat 1) with 1024 in Hb |- * | change (1024 ^ Z.of_nat 2) with 1048576 in Hb |- *];
    (replace (10 ^ 21 * _ <=? b) with false by (symmetry; apply Z.leb_gt; lia));
    match goal with |- context [(?a / ?d)] =>
      replace (a / d) with 10240 by (apply Z.div_unique_pos with (r := a - d * 10240); lia)
    end; reflexivity.
Qed.

(** Counts below 1024 are printed as the integer followed by ["B"]. *)
Theorem formatBytes_small (b : Z) :
  0 <= b < 1024 -> formatBytes (NFin b) = Some (decimal b ++ "B")%string.
Proof.
  intros Hb. rewrite formatBytes_scale. unfold unit_index.
  replace (b <? 1024) with true by (symmetry; apply Z.ltb_lt; lia). simpl.
  unfold toFixed.
  replace (b <? 0) with false by (symmetry; apply Z.ltb_ge; lia).
  rewrite Z.abs_eq by lia.
  replace (10 ^ 21 * 1 <=? b) with false by (symmetry; apply Z.leb_gt; lia).
  change (10 ^ Z.of_nat 0) with 1.
  replace ((2 * b * 1 + 1) / (2 * 1)) with b
    by (apply Z.div_unique_pos with (r := 1); lia).
  reflexivity.
Qed.

End FormatFacts.

(* ------------------------------------------------------------------ *)
(** ** Command-line arguments *)

Module CliFacts.
Import Transform Cli.

Lemma ends_with_app (c : ascii) (s1 s2 : string) :
  s2 <> EmptyString -> ends_with c (s1 ++ s2) = ends_with c s2.
Proof.
  intros H. induction s1 as [|x s1 IH]; [reflexivity|].
  cbn [append]. rewrite <- IH. cbn [ends_with].
  destruct (s1 ++ s2)%string eqn:E; [|reflexivity].
  destruct s1; simpl in E; [contradiction|discriminate].
Qed.

Lemma with_separator_ends (p : platform) (a : string) :
  ends_with (pathSeparator p) (with_separator p a) = true.
Proof.
  unfold with_separator. destruct (ends_with _ a) eqn:E; [exact E|].
  rewrite ends_with_app by discriminate. simpl. apply Ascii.eqb_refl.
Qed.

Lemma default_not_ends_with_sep (p : platform) (base : string) :
  ends_with (pathSeparator p) (DEFAULT_TARGET_PATH p base) = false.
Proof.
  unfold DEFAULT_TARGET_PATH.
  change (".." ++ String (pathSeparator p) (base ++ "-flatten-flattened"))%string
    with ((String "." (String "." (String (pathSeparator p) base))) ++ "-flatten-flattened")%string.
  rewrite ends_with_app by discriminate. destruct p; reflexivity.
Qed.

(** Once an argument has been reported unknown, the loop cannot succeed. *)
Lemma unknown_blocks_proceed (p : platform) (dflt : string) (n : nat) :
  forall args o u o', length args <= n -> u <> [] -> parse_loop p dflt o u args <> Proceed o'.
Proof.
  induction n as [|n IH]; intros args o u o' Hlen Hu.
  - destruct args; [|simpl in Hlen; lia]. simpl. destruct u; [contradiction|discriminate].
  - destruct args as [|arg rest]; cbn [parse_loop].
    + destruct u; [contradiction|discriminate].
    + simpl in Hlen.
      assert (Hu' : (u ++ [arg])%list <> []) by (destruct u; discriminate).
      destruct (Config.starts_with _ arg);
        [|destruct (String.eqb _ dflt); apply IH; (lia || assumption)].
      repeat match goal with |- context [if is_flag ?f ?l then _ else _] => destruct (is_flag f l) end;
        try discriminate; try (apply IH; (lia || assumption)).
      destruct rest as [|sizeArg rest']; [discriminate|].
      destruct (String.eqb sizeArg _); [discriminate|].
      destruct (SizeArg.parseFileSize sizeArg); [|discriminate].
      apply IH; [simpl in Hlen; lia|assumption].
Qed.

Lemma target_invariant (p : platform) (dflt : string) (n : nat) :
  ends_with (pathSeparator p) dflt = false ->
  forall args o u o', length args <= n -> parse_loop p dflt o u args = Proceed o' ->
  u = [] /\
  ((positionals args = [] /\ o_targetPath o' = o_targetPath o) \/
   (o_targetPath o = dflt /\ exists a, positionals args = [a] /\ o_targetPath o' = with_separator p a)).
Proof.
  intros Hd. induction n as [|n IH]; intros args o u o' Hlen Hp.
  - destruct args; [|simpl in Hlen; lia]. simpl in Hp.
    destruct u; [|discriminate]. injection Hp as <-. auto.
  - destruct args as [|arg rest].
    + simpl in Hp. destruct u; [|discriminate]. injection Hp as <-. auto.
    + simpl in Hlen. cbn [parse_loop positionals] in Hp |- *.
      destruct (Config.starts_with _ arg) eqn:Hs.
      * destruct (String.eqb (flag_of arg) "max-size") eqn:Hm.
        -- apply String.eqb_eq in Hm. rewrite Hm in Hp. cbn in Hp.
           destruct rest as [|sizeArg rest']; [discriminate|].
           destruct (String.eqb sizeArg ""); [discriminate|].
           destruct (SizeArg.parseFileSize sizeArg); [|discriminate].
           simpl in Hlen. exact (IH rest' _ u o' ltac:(lia) Hp).
        -- assert (Hm' : is_flag (flag_of arg) ["max-size"] = false)
             by (unfold is_flag; simpl; rewrite Hm; reflexivity).
           rewrite Hm' in Hp.
           repeat match type of Hp with context [if is_flag ?f ?l then _ else _] =>
             destruct (is_flag f l) end;
             try discriminate;
             try exact (IH rest _ u o' ltac:(lia) Hp).
           exfalso. revert Hp. apply unknown_blocks_proceed with (n := n); [lia|destruct u; discriminate].
      * destruct (String.eqb (o_targetPath o) dflt) eqn:Ht.
        -- apply String.eqb_eq in Ht.
           destruct (IH rest _ u o' ltac:(lia) Hp) as [Hu [[Hpos Ho']|[Hbad _]]].
           ++ split; [exact Hu|]. right. split; [exact Ht|]. exists arg. rewrite Hpos. split; [reflexivity|exact Ho'].
           ++ simpl in Hbad. exfalso. pose proof (with_separator_ends p arg) as He.
              rewrite Hbad, Hd in He. discriminate.
        -- exfalso. revert Hp. apply unknown_blocks_proceed with (n := n); [lia|destruct u; discriminate].
Qed.

Lemma parseFileSize_dash (s : string) : SizeArg.parseFileSize (String "-" s) = None.
Proof. reflexivity. Qed.

Lemma dash_forms_loop (p : platform) (dflt : string) (n : nat) :
  forall args args' o u, length args <= n ->
  Forall2 (fun a a' => a = a' \/ exists f, In f flag_names /\ a = ("-" ++ f)%string /\ a' = ("--" ++ f)%string)
    args args' ->
  parse_loop p dflt o u args = parse_loop p dflt o u args'.
Proof.
  induction n as [|n IH]; intros args args' o u Hlen Hr.
  - destruct args; [|simpl in Hlen; lia]. inversion Hr. reflexivity.
  - destruct Hr as [|a a' rest rest' Ha Hrest]; [reflexivity|].
    simpl in Hlen.
    assert (Htail : forall o u, parse_loop p dflt o u rest = parse_loop p dflt o u rest')
      by (intros; apply IH; [lia|exact Hrest]).
    assert (Hsize : forall o u,
      match rest with
      | [] => SizeMissing
      | sizeArg :: rest0 => if String.eqb sizeArg EmptyString then SizeMissing
          else match SizeArg.parseFileSize sizeArg with
               | None => SizeInvalid
               | Some m => parse_loop p dflt (set_maxFileSize o m) u rest0 end
      end =
      match rest' with
      | [] => SizeMissing
      | sizeArg :: rest0 => if String.eqb sizeArg EmptyString then SizeMissing
          else match SizeArg.parseFileSize sizeArg with
               | None => SizeInvalid
               | Some m => parse_loop p dflt (set_maxFileSize o m) u rest0 end
      end).
    { intros o1 u1. destruct Hrest as [|s s' r r' Hs Hr']; [reflexivity|].
      simpl in Hlen. destruct Hs as [<- | [f [_ [-> ->]]]].
      - destruct (String.eqb s _); [reflexivity|].
        destruct (SizeArg.parseFileSize s); [|reflexivity]. apply IH; [lia|exact Hr'].
      - reflexivity. }
    cbn [parse_loop].
    destruct Ha as [<- | [f [Hf [-> ->]]]].
    + destruct (Config.starts_with _ a).
      * repeat match goal with |- context [if is_flag ?f ?l then _ else _] => destruct (is_flag f l) end;
          first [reflexivity | apply Htail | apply Hsize].
      * destruct (String.eqb _ dflt); apply Htail.
    + assert (Hfl : flag_of ("--" ++ f)%string = flag_of ("-" ++ f)%string).
      { simpl in Hf. repeat destruct Hf as [<- | Hf]; [..|contradiction]; reflexivity. }
      change (Config.starts_with "-" ("--" ++ f)%string) with true.
      change (Config.starts_with "-" ("-" ++ f)%string) with true.
      cbv iota. rewrite Hfl.
      assert (Hin : In (flag_of ("-" ++ f)%string) flag_names).
      { simpl in Hf |- *. repeat destruct Hf as [<- | Hf]; [..|contradiction]; simpl; tauto. }
      remember (flag_of ("-" ++ f)%string) as g eqn:Hg. clear Hg Hfl.
      simpl in Hin.
      repeat destruct Hin as [<- | Hin]; try contradiction; cbn -[parse_loop];
        first [reflexivity | apply Htail | apply Hsize].
Qed.

(** The flags of the [switch] may be written with one dash or two:
    replacing ["-f"] by ["--f"] anywhere in the arguments, for any flag
    name [f] of the [switch], changes nothing, even where the argument is
    read as the value of [--max-size]. *)
Theorem flag_dash_forms (p : platform) (base : string) (pre post : list string) (f : string) :
  In f flag_names ->
  parseArgs p base (pre ++ ("-" ++ f)%string :: post)
  = parseArgs p base (pre ++ ("--" ++ f)%string :: post).
Proof.
  intros Hf. unfold parseArgs. apply dash_forms_loop with (n := length (pre ++ ("-" ++ f)%string :: post)); [lia|].
  apply Forall2_app.
  - induction pre; constructor; [left; reflexivity|assumption].
  - constructor; [right; exists f; auto|].
    induction post; constructor; [left; reflexivity|assumption].
Qed.

(** When the arguments are accepted, at most one of them was read as a
    positional argument: with none the target is the default
    [../<dir>-flatten-flattened]; with one, [a], the target is [a] with
    the path separator appended unless [a] already ends with it. *)
Theorem target_path_from_positionals (p : platform) (base : string) (args : list string) (o : options) :
  parseArgs p base args = Proceed o ->
  (positionals args = [] /\ o_targetPath o = DEFAULT_TARGET_PATH p base) \/
  (exists a, positionals args = [a] /\ o_targetPath o = with_separator p a /\
             ends_with (pathSeparator p) (o_targetPath o) = true).
Proof.
  intros Hp. unfold parseArgs in Hp.
  destruct (target_invariant p _ (length args) (default_not_ends_with_sep p base) args _ _ o
              (le_n _) Hp) as [_ [[Hpos Ht]|[_ [a [Hpos Ht]]]]].
  - left. split; [exact Hpos|exact Ht].
  - right. exists a. split; [exact Hpos|split; [exact Ht|rewrite Ht; apply with_separator_ends]].
Qed.

(** An empty first argument is read as the target path and becomes the
    path separator alone: the root directory on POSIX. *)
Theorem empty_argument_targets_root (p : platform) (base : string) (rest : list string) (o : options) :
  parseArgs p base (EmptyString :: rest) = Proceed o ->
  o_targetPath o = String (pathSeparator p) EmptyString.
Proof.
  intros Hp. unfold parseArgs in Hp.
  destruct (target_invariant p _ (length (EmptyString :: rest)) (default_not_ends_with_sep p base)
              _ _ _ o (le_n _) Hp) as [_ [[Hpos _]|[_ [a [Hpos Ht]]]]].
  - discriminate Hpos.
  - simpl in Hpos. injection Hpos as <- _. rewrite Ht. unfold with_separator. reflexivity.
Qed.

End CliFacts.

(* ------------------------------------------------------------------ *)
(** ** The main execution *)

Module MainFacts.
Import Transform Engine Cli Main.
Local Open Scope list_scope.

(** A dry run changes nothing on disk: it neither creates nor cleans the
    target directory, and copies no file. *)
Theorem dry_run_touches_nothing (p : platform) (h : host) (sys : fs) (o : options) :
  o_dryRun o = true ->
  snd (fst (main p h sys o)) = [] /\
  (forall res, snd (main p h sys o) = Some res -> writes (snd res) = []).
Proof.
  intros Hdry. unfold main. rewrite Hdry.
  destruct (flatten_file h) as [| |text]; cbn [negb fst snd app];
    try (split; [reflexivity|discriminate]).
  destruct (Config.parseFlattenList text) as [|r rs]; [split; [reflexivity|discriminate]|].
  destruct (if respectGitignore o then _ else _) as [pats|]; [|split; [reflexivity|discriminate]].
  split; [reflexivity|]. intros res Hres. injection Hres as <-.
  apply StatsFacts.dry_run_no_writes. exact Hdry.
Qed.

Lemma clean_files_removed (rm_ok : string -> bool) (files : list string) (g : string) :
  In (Remove g) (fst (clean_files rm_ok files)) -> In g files /\ rm_ok g = true.
Proof.
  induction files as [|f files IH]; simpl; [contradiction|].
  destruct (rm_ok f) eqn:Hf; [|contradiction].
  destruct (clean_files rm_ok files) as [es ok] eqn:E. simpl in *.
  intros [Hg|Hg]; [injection Hg as <-; auto|].
  destruct (IH Hg) as [H1 H2]. auto.
Qed.

Lemma clean_files_fails (rm_ok : string -> bool) (files : list string) (f : string) :
  In f files -> rm_ok f = false -> snd (clean_files rm_ok files) = false.
Proof.
  intros Hin Hf. induction files as [|x files IH]; [contradiction|].
  simpl. destruct (rm_ok x) eqn:Hx; [|reflexivity].
  destruct Hin as [<- | Hin]; [congruence|].
  specialize (IH Hin). destruct (clean_files rm_ok files) as [es ok]. exact IH.
Qed.

Lemma clean_files_all (rm_ok : string -> bool) (files : list string) :
  forallb rm_ok files = true -> clean_files rm_ok files = (map Remove files, true).
Proof.
  induction files as [|f files IH]; simpl; [reflexivity|].
  intros H. apply andb_true_iff in H as [Hf H]. rewrite Hf, IH by exact H. reflexivity.
Qed.

(** With [--clean], a file of the target directory that cannot be
    removed cancels the run with exit code 1 before any copy; the files
    removed until then are files listed in the target directory. *)
Theorem failed_removal_cancels (p : platform) (h : host) (sys : fs) (o : options) (f : string) :
  flatten_file h <> Absent -> o_dryRun o = false -> cleanFirst o = true ->
  In f (glob_plain h (pjoin h (o_targetPath o) "*.*")) -> rm_ok h f = false ->
  fst (fst (main p h sys o)) = 1%Z /\ snd (main p h sys o) = None /\
  (forall g, In (Remove g) (snd (fst (main p h sys o))) ->
     In g (glob_plain h (pjoin h (o_targetPath o) "*.*")) /\ rm_ok h g = true).
Proof.
  intros Hff Hdry Hclean Hin Hf. unfold main.
  pose proof (clean_files_fails _ _ _ Hin Hf) as Hfail.
  pose proof (clean_files_removed (rm_ok h) (glob_plain h (pjoin h (o_targetPath o) "*.*"))) as Hrm.
  destruct (clean_files _ _) as [rm ok] eqn:Hcf. simpl in Hfail, Hrm. subst ok.
  rewrite Hdry, Hclean.
  destruct (flatten_file h) as [| |text]; [congruence| |];
    (destruct (dir_exists h (o_targetPath o)); [|destruct (mkdir_ok h (o_targetPath o))]);
    cbn [negb fst snd]; rewrite ?Hcf; cbn [negb fst snd];
    (split; [reflexivity|split; [reflexivity|]]);
    intros g Hg; try (apply in_app_iff in Hg as [Hg|Hg]; [|exact (Hrm g Hg)]);
    simpl in Hg; intuition congruence.
Qed.

(** The target directory is created and, with [--clean], emptied before
    [.flatten] is read: a [.flatten] without any rule, or one whose read
    throws, still has every listed file of the target directory removed,
    then the script exits with code 1. *)
Theorem clean_precedes_config_check (p : platform) (h : host) (sys : fs) (o : options) :
  match flatten_file h with
  | Absent => False
  | Unreadable => True
  | Contents text => Config.parseFlattenList text = []
  end ->
  o_dryRun o = false -> cleanFirst o = true ->
  dir_exists h (o_targetPath o) = true \/ mkdir_ok h (o_targetPath o) = true ->
  forallb (rm_ok h) (glob_plain h (pjoin h (o_targetPath o) "*.*")) = true ->
  main p h sys o
  = (1%Z, (if dir_exists h (o_targetPath o) then [] else [Mkdir (o_targetPath o)])
          ++ map Remove (glob_plain h (pjoin h (o_targetPath o) "*.*")), None).
Proof.
  intros Hff Hdry Hclean Hmk Hall. unfold main.
  rewrite Hdry, Hclean, clean_files_all by exact Hall.
  destruct (dir_exists h (o_targetPath o)) eqn:Hd;
    [|destruct Hmk as [Hmk|Hmk]; [discriminate|rewrite Hmk]];
    (destruct (flatten_file h) as [| |text]; [contradiction|reflexivity|rewrite Hff; reflexivity]).
Qed.

(** A [mkdirSync] that throws (the target directory is missing and cannot
    be created) ends the script with exit code 1 before anything is
    removed or copied. *)
Theorem mkdir_failure_aborts (p : platform) (h : host) (sys : fs) (o : options) :
  flatten_file h <> Absent -> o_dryRun o = false ->
  dir_exists h (o_targetPath o) = false -> mkdir_ok h (o_targetPath o) = false ->
  main p h sys o = (1%Z, [MkdirFailed (o_targetPath o)], None).
Proof.
  intros Hff Hdry Hd Hmk. unfold main. rewrite Hdry, Hd, Hmk.
  destruct (flatten_file h); [congruence|reflexivity|reflexivity].
Qed.

(** [--gitignore] with a readable or missing [.gitignore] changes only
    which files are processed: the exit code and the directory effects
    stay the same, and the processed paths are those of the same run
    without the flag, less the ones matching a pattern of [.gitignore], in
    the same order. *)
Theorem gitignore_flag_filters (p : platform) (h : host) (sys : fs) (o : options)
  (pats : list string) :
  respectGitignore o = false -> load_gitignore (gitignore_file h) = Some pats ->
  fst (main p h sys (set_gitignore o)) = fst (main p h sys o) /\
  option_map (fun r => map fst (outcomes (snd r))) (snd (main p h sys (set_gitignore o)))
  = option_map (fun r => filter (fun file => forallb (fun d => negb (mm h file d)) pats)
                           (map fst (outcomes (snd r))))
      (snd (main p h sys o)).
Proof.
  intros Hg Hload. unfold main. cbn [o_dryRun cleanFirst o_targetPath respectGitignore set_gitignore].
  rewrite Hg, Hload.
  destruct (flatten_file h) as [| |text]; [split; reflexivity| |].
  all: destruct (if o_dryRun o then _ else _) as [mk mk_ok]; destruct mk_ok; cbn [negb];
    [|split; reflexivity].
  all: destruct (if o_dryRun o then _ else _) as [rm ok]; destruct ok; cbn [negb];
    [|split; reflexivity].
  - split; reflexivity.
  - destruct (Config.parseFlattenList text) as [|r rs]; [split; reflexivity|].
    split; [reflexivity|]. cbn [option_map snd]. f_equal.
    destruct pats as [|g gs].
    + simpl. symmetry. apply EngineFacts.filter_const_true.
    + apply (StatsFacts.outcome_paths_extra_exclusions (run_config p h o)).
Qed.

(** With [--gitignore], a [.gitignore] that exists but cannot be read
    makes [loadGitignorePatterns] throw: the script ends with exit code 1
    and copies nothing, after the same directory setup as without the
    flag. *)
Theorem unreadable_gitignore_aborts (p : platform) (h : host) (sys : fs) (o : options) :
  respectGitignore o = false -> gitignore_file h = Unreadable ->
  fst (fst (main p h sys (set_gitignore o))) = 1%Z /\
  snd (main p h sys (set_gitignore o)) = None /\
  snd (fst (main p h sys (set_gitignore o))) = snd (fst (main p h sys o)).
Proof.
  intros Hg Hu. unfold main. cbn [o_dryRun cleanFirst o_targetPath respectGitignore set_gitignore].
  rewrite Hg, Hu. cbn [load_gitignore].
  destruct (flatten_file h) as [| |text]; [repeat split| |].
  all: destruct (if o_dryRun o then _ else _) as [mk mk_ok]; destruct mk_ok; cbn [negb];
    [|repeat split].
  all: destruct (if o_dryRun o then _ else _) as [rm ok]; destruct ok; cbn [negb];
    [|repeat split].
  - repeat split.
  - destruct (Config.parseFlattenList text) as [|r rs]; repeat split.
Qed.

End MainFacts.

(* ------------------------------------------------------------------ *)
(** ** Instances of the properties above *)

Module ExtraChecks.
Import Transform Engine Scenarios Cli Main HostScenarios.
Local Open Scope list_scope.

Lemma formatBytes_rounds_up_to_1024_witness :
  ((1 = 1 \/ 1 = 2)%nat /\
   (20479 * 1024 ^ Z.of_nat 1 <= 20 * 1048525 < 20480 * 1024 ^ Z.of_nat 1)%Z) /\
  Format.formatBytes (NFin 1048525) = Some ("1024.0" ++ nth 1 Format.units EmptyString)%string.
Proof.
  split; [split; [left; reflexivity|simpl; lia]|].
  apply FormatFacts.formatBytes_rounds_up_to_1024; [left; reflexivity|simpl; lia].
Defined.

Lemma formatBytes_small_witness :
  (0 <= 1023 < 1024)%Z /\ Format.formatBytes (NFin 1023) = Some (Format.decimal 1023 ++ "B")%string.
Proof.
  split; [lia|]. apply FormatFacts.formatBytes_small. lia.
Defined.

Lemma flag_dash_forms_witness :
  In "verbose" flag_names /\
  parseArgs Posix "proj" (["--max-size"] ++ ("-" ++ "verbose")%string :: [])
  = parseArgs Posix "proj" (["--max-size"] ++ ("--" ++ "verbose")%string :: []).
Proof.
  split; [simpl; tauto|]. apply CliFacts.flag_dash_forms. simpl; tauto.
Defined.

Lemma target_path_from_positionals_witness :
  parseArgs Posix "proj" ["-v"; "out"] = Proceed (Build_options "out/" false false true false false None false) /\
  ((positionals ["-v"; "out"] = [] /\
    o_targetPath (Build_options "out/" false false true false false None false) = DEFAULT_TARGET_PATH Posix "proj") \/
   (exists a, positionals ["-v"; "out"] = [a] /\
      o_targetPath (Build_options "out/" false false true false false None false) = with_separator Posix a /\
      ends_with (pathSeparator Posix) (o_targetPath (Build_options "out/" false false true false false None false)) = true)).
Proof.
  split; [reflexivity|]. apply CliFacts.target_path_from_positionals. reflexivity.
Defined.

Lemma empty_argument_targets_root_witness :
  parseArgs Posix "proj" [EmptyString; "-n"] = Proceed (Build_options "/" false false false true false None false) /\
  o_targetPath (Build_options "/" false false false true false None false) = String (pathSeparator Posix) EmptyString.
Proof.
  split; [reflexivity|]. apply (CliFacts.empty_argument_targets_root Posix "proj" ["-n"]). reflexivity.
Defined.

Lemma dry_run_touches_nothing_witness :
  o_dryRun (options_for true true) = true /\
  snd (fst (main Posix (project "a.ts" None (fun _ => true)) (disk [("a.ts", 10%Z)]) (options_for true true))) = [] /\
  (forall res, snd (main Posix (project "a.ts" None (fun _ => true)) (disk [("a.ts", 10%Z)]) (options_for true true)) = Some res ->
     writes (snd res) = []).
Proof.
  split; [reflexivity|]. apply MainFacts.dry_run_touches_nothing. reflexivity.
Defined.

Lemma failed_removal_cancels_witness :
  let h := project "a.ts" None (fun file => negb (String.eqb file "out/notes.md")) in
  (flatten_file h <> Absent /\ o_dryRun (options_for false true) = false /\
   cleanFirst (options_for false true) = true /\
   In "out/notes.md" (glob_plain h (pjoin h (o_targetPath (options_for false true)) "*.*")) /\
   rm_ok h "out/notes.md" = false) /\
  fst (fst (main Posix h (disk [("a.ts", 10%Z)]) (options_for false true))) = 1%Z /\
  snd (main Posix h (disk [("a.ts", 10%Z)]) (options_for false true)) = None /\
  (forall g, In (Remove g) (snd (fst (main Posix h (disk [("a.ts", 10%Z)]) (options_for false true)))) ->
     In g (glob_plain h (pjoin h (o_targetPath (options_for false true)) "*.*")) /\ rm_ok h g = true).
Proof.
  cbv zeta. split.
  - split; [discriminate|split; [reflexivity|split; [reflexivity|split; [simpl; tauto|reflexivity]]]].
  - apply MainFacts.failed_removal_cancels with (f := "out/notes.md");
      [discriminate|reflexivity|reflexivity|simpl; tauto|reflexivity].
Defined.

Lemma clean_precedes_config_check_witness :
  let h := project "# no rules yet" None (fun _ => true) in
  (match flatten_file h with
   | Absent => False
   | Unreadable => True
   | Contents text => Config.parseFlattenList text = []
   end /\
   o_dryRun (options_for false true) = false /\
   cleanFirst (options_for false true) = true /\
   (dir_exists h (o_targetPath (options_for false true)) = true \/
    mkdir_ok h (o_targetPath (options_for false true)) = true) /\
   forallb (rm_ok h) (glob_plain h (pjoin h (o_targetPath (options_for false true)) "*.*")) = true) /\
  main Posix h (disk []) (options_for false true)
  = (1%Z, (if dir_exists h (o_targetPath (options_for false true)) then []
           else [Mkdir (o_targetPath (options_for false true))])
          ++ map Remove (glob_plain h (pjoin h (o_targetPath (options_for false true)) "*.*")), None).
Proof.
  cbv zeta. split.
  - split; [reflexivity|split; [reflexivity|split; [reflexivity|split; [left; reflexivity|reflexivity]]]].
  - apply MainFacts.clean_precedes_config_check;
      [reflexivity|reflexivity|reflexivity|left; reflexivity|reflexivity].
Defined.

Lemma mkdir_failure_aborts_witness :
  let h := no_target_dir "a.ts" in
  (flatten_file h <> Absent /\ o_dryRun (options_for false false) = false /\
   dir_exists h (o_targetPath (options_for false false)) = false /\
   mkdir_ok h (o_targetPath (options_for false false)) = false) /\
  main Posix h (disk [("a.ts", 10%Z)]) (options_for false false)
  = (1%Z, [MkdirFailed (o_targetPath (options_for false false))], None).
Proof.
  cbv zeta. split.
  - split; [discriminate|split; [reflexivity|split; reflexivity]].
  - apply MainFacts.mkdir_failure_aborts; [discriminate|reflexivity|reflexivity|reflexivity].
Defined.

Lemma gitignore_flag_filters_witness :
  let h := project ("a.ts" ++ String "010" "b.log")%string (Some "b.log") (fun _ => true) in
  (respectGitignore (options_for false false) = false /\
   load_gitignore (gitignore_file h) = Some ["b.log"]) /\
  fst (main Posix h (disk [("a.ts", 1%Z); ("b.log", 2%Z)]) (set_gitignore (options_for false false)))
  = fst (main Posix h (disk [("a.ts", 1%Z); ("b.log", 2%Z)]) (options_for false false)) /\
  option_map (fun r => map fst (outcomes (snd r)))
    (snd (main Posix h (disk [("a.ts", 1%Z); ("b.log", 2%Z)]) (set_gitignore (options_for false false))))
  = option_map (fun r => filter (fun file => forallb (fun d => negb (mm h file d)) ["b.log"])
                           (map fst (outcomes (snd r))))
      (snd (main Posix h (disk [("a.ts", 1%Z); ("b.log", 2%Z)]) (options_for false false))).
Proof.
  cbv zeta. split; [split; reflexivity|].
  apply MainFacts.gitignore_flag_filters; reflexivity.
Defined.

Lemma unreadable_gitignore_aborts_witness :
  let h := unreadable_gitignore "a.ts" in
  (respectGitignore (options_for false false) = false /\ gitignore_file h = Unreadable) /\
  fst (fst (main Posix h (disk [("a.ts", 1%Z)]) (set_gitignore (options_for false false)))) = 1%Z /\
  snd (main Posix h (disk [("a.ts", 1%Z)]) (set_gitignore (options_for false false))) = None /\
  snd (fst (main Posix h (disk [("a.ts", 1%Z)]) (set_gitignore (options_for false false))))
  = snd (fst (main Posix h (disk [("a.ts", 1%Z)]) (options_for false false))).
Proof.
  cbv zeta. split; [split; reflexivity|].
  apply MainFacts.unreadable_gitignore_aborts; reflexivity.
Defined.

End ExtraChecks.
